(** * Loki data source: query orchestration

    A shallow embedding of [LokiDatasource] (the second document of
    [RefreshPicker.story.tsx]): construction, the time resolver [getTime],
    the target builder [prepareQueryTarget], the one-shot executor [query],
    the streaming executor [requestStream] and the connectivity check
    [testDatasource].

    JavaScript numbers are idealised: integers are [Z], the millisecond
    value of a date is an exact rational [Q].  The time resolver is also
    given in double precision ([getTime_double], over binary64 floats),
    which is where the rounding of [Math.ceil(date.valueOf() * 1e6)] is
    settled.  Objects built by spreading
    are association lists in key insertion order; the log streams that
    [query] mutates in place live in a store addressed by references.
    The collaborators the class imports or is injected with (template
    interpolation, expression parser, date math, stream merger, series
    builder, URI encoding, the wall clock and the backend transport) are
    the fields of the class [Services]. *)

From Stdlib Require Import ZArith QArith Qround String Ascii List Lia Floats.
From stdpp Require Import base option list strings gmap pretty.

Local Open Scope string_scope.
Local Open Scope list_scope.
Local Open Scope Z_scope.

(** ** JavaScript values and objects *)

(** The primitive values stored in request parameters. *)
Inductive Val :=
| VStr (s : string)
| VNum (n : Z).

#[global] Instance Val_eq_dec : EqDecision Val.
Proof. solve_decision. Defined.

(** [String(v)] *)
Definition toString (v : Val) : string :=
  match v with
  | VStr s => s
  | VNum n => pretty n
  end.

(** A string is truthy when it is not empty. *)
Definition truthy_str (s : string) : bool :=
  match s with
  | EmptyString => false
  | String _ _ => true
  end.

(** An object literal: its own enumerable keys in insertion order. *)
Definition Obj := list (string * Val).

Fixpoint obj_get (k : string) (o : Obj) : option Val :=
  match o with
  | [] => None
  | (k', v) :: o' => if decide (k' = k) then Some v else obj_get k o'
  end.

(** [o[k] = v]: an existing key keeps its place, a new key goes last. *)
Fixpoint obj_set (k : string) (v : Val) (o : Obj) : Obj :=
  match o with
  | [] => [(k, v)]
  | (k', v') :: o' =>
      if decide (k' = k) then (k', v) :: o' else (k', v') :: obj_set k v o'
  end.

(** [{...base, ...ext}] *)
Definition obj_spread (base ext : Obj) : Obj :=
  fold_left (fun acc kv => obj_set kv.1 kv.2 acc) ext base.

(** [Object.keys(o)] *)
Definition obj_keys (o : Obj) : list string := map fst o.

(** *** [parseInt(s, 10)] *)

Definition is_space (c : ascii) : bool :=
  let n := N_of_ascii c in
  (((9 <=? n) && (n <=? 13)) || (n =? 32))%N.

Fixpoint skip_spaces (s : string) : string :=
  match s with
  | String c s' => if is_space c then skip_spaces s' else s
  | EmptyString => s
  end.

Definition digit_of (c : ascii) : option Z :=
  let n := Z.of_N (N_of_ascii c) in
  if (48 <=? n) && (n <=? 57) then Some (n - 48) else None.

(** The longest prefix of decimal digits; [None] (NaN) when it is empty. *)
Fixpoint digits (s : string) (acc : option Z) : option Z :=
  match s with
  | String c s' =>
      match digit_of c with
      | Some d => digits s' (Some (10 * default 0 acc + d))
      | None => acc
      end
  | EmptyString => acc
  end.

Definition parseInt10 (s : string) : option Z :=
  match skip_spaces s with
  | String "-" r => Z.opp <$> digits r None
  | String "+" r => digits r None
  | r => digits r None
  end.

(** [parseInt(x, 10)] for a possibly undefined [x]: [undefined] is first
    converted to the string "undefined".  White space is the ASCII one and
    the digits are kept exactly, where JavaScript also skips Unicode blanks
    and rounds to a double. *)
Definition parseInt (x : option string) : option Z :=
  parseInt10 (default "undefined" x).

(** [a || b] on numbers: NaN and 0 are falsy. *)
Definition num_or (a : option Z) (b : Z) : Z :=
  match a with
  | Some n => if n =? 0 then b else n
  | None => b
  end.

(** ** Data model *)

(** A moment (or any date-like object): [valueOf] is its epoch value in
    milliseconds. *)
Record Moment := { valueOf : Q }.

(** What [getTime] receives: a relative expression or an absolute date. *)
Inductive DateInput :=
| DateString (s : string)
| DateMoment (m : Moment).

Record TimeRange := { rg_from : DateInput; rg_to : DateInput }.

(** A raw target and the options of a batch, with the fields the class
    reads ([LokiQuery] and [DataQueryOptions] are declared elsewhere). *)
Record LokiQuery := {
  expr : string;
  format : option string;
  hide : bool;
}.

Record DataQueryOptions := {
  targets : list LokiQuery;
  range : TimeRange;
  intervalMs : Z;
}.

(** The result of the expression parser. *)
Record ParsedSelector := { ps_query : string; ps_regexp : string }.

(** Modelled from the spec: the stream, row, series and logs-model types are
    declared in [app/core/logs_model], outside the source at hand; the
    fields are those of section 3 of the specification, [search] being the
    tag the class writes. *)
Record LogsStreamEntry := { line : string; timestamp : Z }.

Record LogsStream := {
  labels : string;
  entries : list LogsStreamEntry;
  search : option Val;
}.

Record LogRow := {
  row_timestampNs : Z;
  row_line : string;
  row_labels : string;
  row_searchFilterTag : option Val;
}.

Record Series := { series_labels : string; datapoints : list (Z * Z) }.

Record LogsModel := { rows : list LogRow; series : list Series }.

(** References to stream objects in the store. *)
Definition loc := positive.

Record ResponseData := {
  rd_streams : option (list loc);
  rd_values : option (list string);
}.

(** A backend response; a missing body is [None]. *)
Record Response := { res_data : option ResponseData }.

(** The payload of a rejected backend call. *)
Inductive ErrData :=
| ErrObject (msg : option string)
| ErrText (s : string).

Record HttpError := {
  statusText : option string;
  err_status : option Z;
  err_data : option ErrData;
}.

Inductive Err :=
| TypeError
| Rejected (e : HttpError)
| RejectedNullish.

(** A settled promise, or the outcome of a call that may throw. *)
Inductive Result (A : Type) :=
| Ok (a : A)
| Fail (e : Err).

Arguments Ok {A} a.
Arguments Fail {A} e.

(** The request object handed to the backend service:
    [{...options, url}]. *)
Record Request := {
  req_url : string;
  req_options : option DataQueryOptions;
  req_liveStream : option bool;
}.

(** One element of a [data] array. *)
Inductive DataItem :=
| ItemSeries (s : Series)
| ItemStream (s : LogsStream).

Record QueryResult := { qr_data : list DataItem }.

(** What the observable returned by [requestStream] emits: the [EMPTY]
    observables of the array handed to [merge], and result objects. *)
Inductive Emission :=
| EmEMPTY
| EmResult (r : QueryResult).

Record TestResult := { status : string; message : string }.

Record JsonData := { jd_maxLines : option string }.

Record InstanceSettings := {
  is_url : string;
  jsonData : option JsonData;
}.

Record LokiDatasource := {
  instanceSettings : InstanceSettings;
  maxLines : Z;
}.

(** ** Collaborators *)

(** The services and imported functions the class calls but does not
    define.  The clock and the backend are indexed by the number of
    earlier readings or calls, so successive calls may answer differently;
    a backend stream is given by the responses it emits before it
    completes. *)
Class Services := {
  templateSrv_replace : string -> string;
  parseQuery : string -> ParsedSelector;
  dateMath_parse : string -> bool -> option Moment;
  mergeStreamsToLogs : list LogsStream -> Z -> LogsModel;
  makeSeriesForLogs : list LogRow -> Z -> list Series;
  encodeURIComponent : string -> string;
  clock : nat -> Z;
  datasourceRequest : nat -> Request -> Result (option Response);
  datasourceStream : nat -> Request -> list (option Response);
}.

(** ** The world: clock readings, backend calls issued, stream objects *)

Record World := {
  clockReads : nat;
  calls : list Request;
  heap : gmap loc LogsStream;
}.

Definition M (A : Type) : Type := World -> Result A * World.

Definition ret {A} (a : A) : M A := fun w => (Ok a, w).

Definition throw {A} (e : Err) : M A := fun w => (Fail e, w).

Definition bind {A B} (m : M A) (f : A -> M B) : M B :=
  fun w =>
    match m w with
    | (Ok a, w') => f a w'
    | (Fail e, w') => (Fail e, w')
    end.

Notation "x <- m ;; k" := (bind m (fun x => k))
  (at level 100, m at next level, right associativity).

(** [xs.map(f)] for a callback with effects: left to right, stopping at
    the first exception. *)
Fixpoint array_map {A B} (f : A -> M B) (xs : list A) : M (list B) :=
  match xs with
  | [] => ret []
  | x :: xs' =>
      y <- f x ;;
      ys <- array_map f xs' ;;
      ret (y :: ys)
  end.

(** A settled promise awaited, or a pure call that may throw: a failure
    propagates. *)
Definition lift {A} (p : Result A) : M A := fun w => (p, w).

(** [Promise.all] over settled promises. *)
Fixpoint Promise_all {A} (ps : list (Result A)) : Result (list A) :=
  match ps with
  | [] => Ok []
  | Ok a :: ps' =>
      match Promise_all ps' with
      | Ok l => Ok (a :: l)
      | Fail e => Fail e
      end
  | Fail e :: _ => Fail e
  end.

(** Property access on a possibly undefined receiver. *)
Definition defined {A} (x : option A) : M A :=
  match x with
  | Some a => ret a
  | None => throw TypeError
  end.

Definition get_heap : M (gmap loc LogsStream) := fun w => (Ok (heap w), w).

Definition modify_heap (f : gmap loc LogsStream -> gmap loc LogsStream) : M unit :=
  fun w =>
    (Ok tt, {| clockReads := clockReads w; calls := calls w; heap := f (heap w) |}).

(** [moment()] *)
Definition moment `{Services} : M Moment :=
  fun w =>
    (Ok {| valueOf := inject_Z (clock (clockReads w)) |},
     {| clockReads := S (clockReads w); calls := calls w; heap := heap w |}).

(** [m.clone().subtract(n, 'seconds')] *)
Definition subtract_seconds (m : Moment) (n : Z) : Moment :=
  {| valueOf := (valueOf m - inject_Z (n * 1000))%Q |}.

(** The streams behind a list of references (every reference a response
    holds is in the store; a dangling one would be skipped). *)
Definition deref (h : gmap loc LogsStream) (ls : list loc) : list LogsStream :=
  omap (fun l => h !! l) ls.

(** ** The data source *)

Definition DEFAULT_MAX_LINES : Z := 1000.

Definition DEFAULT_QUERY_PARAMS : Obj :=
  [ ("direction", VStr "BACKWARD");
    ("limit", VNum DEFAULT_MAX_LINES);
    ("regexp", VStr "");
    ("query", VStr "") ].

Definition serializeParams `{Services} (data : Obj) : string :=
  String.concat "&"
    (map (fun k =>
            encodeURIComponent k +:+ "=" +:+
            encodeURIComponent (from_option toString "undefined" (obj_get k data)))
       (obj_keys data)).

Definition constructor (settings : InstanceSettings) : LokiDatasource :=
  let settingsData := default {| jd_maxLines := None |} (jsonData settings) in
  {| instanceSettings := settings;
     maxLines := num_or (parseInt (jd_maxLines settingsData)) DEFAULT_MAX_LINES |}.

Definition request_url `{Services} (this : LokiDatasource) (apiUrl : string)
    (data : option Obj) : string :=
  let baseUrl := is_url (instanceSettings this) in
  let params := from_option serializeParams "" data in
  baseUrl +:+ apiUrl +:+ "?" +:+ params.

(** [_request]: the call is recorded, the promise it returns is the
    backend's answer to it. *)
Definition _request `{Services} (this : LokiDatasource) (apiUrl : string)
    (data : option Obj) : M (Result (option Response)) :=
  fun w =>
    let req := {| req_url := request_url this apiUrl data;
                  req_options := None; req_liveStream := None |} in
    (Ok (datasourceRequest (length (calls w)) req),
     {| clockReads := clockReads w; calls := calls w ++ [req]; heap := heap w |}).

(** [_stream] with the options [{...options, liveStream: false}]. *)
Definition _stream `{Services} (this : LokiDatasource) (apiUrl : string)
    (data : option Obj) (options : DataQueryOptions) : M (list (option Response)) :=
  fun w =>
    let req := {| req_url := request_url this apiUrl data;
                  req_options := Some options; req_liveStream := Some false |} in
    (Ok (datasourceStream (length (calls w)) req),
     {| clockReads := clockReads w; calls := calls w ++ [req]; heap := heap w |}).

(** [Math.ceil(date.valueOf() * 1e6)] in exact arithmetic: the reading
    used for the windows of built targets, whose clock values are integer
    milliseconds.  The double-precision reading is [getTime_double]. *)
Definition toNanos (m : Moment) : Z := Qceiling (valueOf m * inject_Z 1000000).

Definition getTime `{Services} (date : DateInput) (roundUp : bool) : Result Z :=
  match date with
  | DateString s =>
      match dateMath_parse s roundUp with
      | Some date' => Ok (toNanos date')
      | None => Fail TypeError
      end
  | DateMoment m => Ok (toNanos m)
  end.

(** *** The time resolver in double precision *)

(** What [getTime] receives, with the epoch value as the binary64 number
    that [valueOf] returns. *)
Inductive DoubleDate :=
| DoubleString (s : string)
| DoubleValue (v : float).

(** The integer [Math.ceil] returns for a double given by sign, mantissa
    and exponent (its value is [m * 2 ^ e], negated when [s]); [None] for
    NaN and the infinities, which [Math.ceil] returns unchanged. *)
Definition SF_ceil (x : spec_float) : option Z :=
  match x with
  | S754_zero _ => Some 0
  | S754_finite s m e =>
      let n := if s then Z.neg m else Z.pos m in
      Some (if 0 <=? e then n * 2 ^ e else - ((- n) / 2 ^ (- e)))
  | S754_infinity _ | S754_nan => None
  end.

Definition Math_ceil (x : float) : option Z := SF_ceil (Prim2SF x).

(** [getTime] on doubles: the product [date.valueOf() * 1e6] is rounded to
    the nearest binary64 number before [Math.ceil] is taken.  [parse] is
    the date-math collaborator, [None] when it returns [undefined]. *)
Definition getTime_double (parse : string -> bool -> option float)
    (date : DoubleDate) (roundUp : bool) : Result (option Z) :=
  match date with
  | DoubleString s =>
      match parse s roundUp with
      | Some v => Ok (Math_ceil (v * 1000000)%float)
      | None => Fail TypeError
      end
  | DoubleValue v => Ok (Math_ceil (v * 1000000)%float)
  end.

(** [format === 'time_series'] *)
Definition is_time_series (target : LokiQuery) : bool :=
  bool_decide (format target = Some "time_series").

(** [options.targets[0]] followed by a property access. *)
Definition first_target (options : DataQueryOptions) : M LokiQuery :=
  defined (targets options !! 0%nat).

Definition parsed_obj (p : ParsedSelector) : Obj :=
  [ ("query", VStr (ps_query p)); ("regexp", VStr (ps_regexp p)) ].

Definition prepareQueryTarget `{Services} (this : LokiDatasource)
    (target : LokiQuery) (options : DataQueryOptions) : M Obj :=
  t0 <- first_target options ;;
  let liveStream := negb (is_time_series t0) in
  let interpolated := templateSrv_replace (expr target) in
  now <- moment ;;
  let liveStreamStart := subtract_seconds now 1 in
  let liveStreamEnd := now in
  start <- lift (if liveStream then getTime (DateMoment liveStreamStart) false
                 else getTime (rg_from (range options)) false) ;;
  end_ <- lift (if liveStream then getTime (DateMoment liveStreamEnd) true
                else getTime (rg_to (range options)) true) ;;
  ret (obj_set "limit" (VNum (maxLines this))
         (obj_set "end" (VNum end_)
            (obj_set "start" (VNum start)
               (obj_spread (obj_spread [] DEFAULT_QUERY_PARAMS)
                  (parsed_obj (parseQuery interpolated)))))).

(** [target.expr && !target.hide] *)
Definition active (target : LokiQuery) : bool :=
  truthy_str (expr target) && negb (hide target).

(** [!target.expr || target.hide] *)
Definition suppressed (target : LokiQuery) : bool :=
  negb (truthy_str (expr target)) || hide target.

Definition tagStream (regexp : option Val) (s : LogsStream) : LogsStream :=
  {| labels := labels s; entries := entries s; search := regexp |}.

(** *** One-shot execution: [query] *)

(** The inner loop of [query]: [stream.search = query.regexp] writes to
    the stream object itself, then the reference is pushed.  [query] is
    [queryTargets[i]], undefined when out of range. *)
Fixpoint tagStreams (query : option Obj) (streams : list loc)
    (allStreams : list loc) : M (list loc) :=
  match streams with
  | [] => ret allStreams
  | stream :: rest =>
      q <- defined query ;;
      _ <- modify_heap (alter (tagStream (obj_get "regexp" q)) stream) ;;
      tagStreams query rest (allStreams ++ [stream])
  end.

(** The outer loop of [query], from index [i] on. *)
Fixpoint collectStreams (queryTargets : list Obj) (i : nat)
    (results : list (option Response)) (allStreams : list loc) : M (list loc) :=
  match results with
  | [] => ret allStreams
  | result :: rest =>
      r <- defined result ;;
      let query := queryTargets !! i in
      allStreams' <- match res_data r with
                     | Some d => tagStreams query (default [] (rd_streams d)) allStreams
                     | None => ret allStreams
                     end ;;
      collectStreams queryTargets (S i) rest allStreams'
  end.

(** The final branch on [options.targets[0].format], shared by [query]
    and [requestStream]. *)
Definition shapeResult `{Services} (this : LokiDatasource)
    (options : DataQueryOptions) (allStreams : list LogsStream) : M QueryResult :=
  t0 <- first_target options ;;
  if is_time_series t0 then
    let logs := mergeStreamsToLogs allStreams (maxLines this) in
    let logs_series := makeSeriesForLogs (rows logs) (intervalMs options) in
    ret {| qr_data := map ItemSeries logs_series |}
  else
    ret {| qr_data := map ItemStream allStreams |}.

(** [query]: a failing result is a rejected promise. *)
Definition query `{Services} (this : LokiDatasource)
    (options : DataQueryOptions) : M QueryResult :=
  queryTargets <- array_map (fun target => prepareQueryTarget this target options)
                    (List.filter active (targets options)) ;;
  if (length queryTargets =? 0)%nat then ret {| qr_data := [] |}
  else
    queries <- array_map (fun target => _request this "/api/prom/query" (Some target))
                 queryTargets ;;
    results <- lift (Promise_all queries) ;;
    allStreams <- collectStreams queryTargets 0 results [] ;;
    h <- get_heap ;;
    shapeResult this options (deref h allStreams).

(** *** Streaming execution: [requestStream]

    An observable is the finite list of the values it emits before it
    completes; error notifications and timing are left out. *)

(** [forkJoin(sources)]: the last value of every source, once, when all of
    them emitted; nothing for an empty array or a source without values. *)
Definition forkJoin {A} (sources : list (list A)) : list (list A) :=
  match sources with
  | [] => []
  | _ :: _ =>
      match mapM (last (A:=A)) sources with
      | Some lasts => [lasts]
      | None => []
      end
  end.

(** [source.pipe(combineLatest(project))] with no further input. *)
Definition combineLatest {A B} (project : A -> B) (source : list A) : list B :=
  map project source.

(** [source.pipe(mergeMap(project))] where [project] returns an array. *)
Definition mergeMap {A B} (project : A -> list B) (source : list A) : list B :=
  concat (map project source).

(** [merge(array, result)]: the array's elements, then the results. *)
Definition merge (emptyStream : list Emission) (result : list QueryResult)
    : list Emission :=
  emptyStream ++ map EmResult result.

(** The [map] callback of a backend stream: copies of the streams, each
    with [search] set. *)
Definition tagCopies (h : gmap loc LogsStream) (target : Obj)
    (result : option Response) : list LogsStream :=
  match result with
  | Some r =>
      match res_data r with
      | Some d =>
          match rd_streams d with
          | Some streams => map (tagStream (obj_get "regexp" target)) (deref h streams)
          | None => []
          end
      | None => []
      end
  | None => []
  end.

Definition requestStream `{Services} (this : LokiDatasource)
    (options : DataQueryOptions) : M (list Emission) :=
  let emptyStream := map (fun _ => EmEMPTY) (List.filter suppressed (targets options)) in
  queryTargets <- array_map (fun target => prepareQueryTarget this target options)
                    (List.filter active (targets options)) ;;
  streams <- array_map
               (fun target =>
                  responses <- _stream this "/api/prom/query" (Some target) options ;;
                  h <- get_heap ;;
                  ret (map (tagCopies h target) responses))
               queryTargets ;;
  result <- array_map (shapeResult this options)
              (mergeMap id (combineLatest id (forkJoin streams))) ;;
  ret (merge emptyStream result).

(** The first [n] ticks of [webSocketStream] while subscribed: every tick
    runs [requestStream] afresh and forwards what it emits. *)
Fixpoint webSocketStream `{Services} (this : LokiDatasource)
    (options : DataQueryOptions) (n : nat) : M (list Emission) :=
  match n with
  | O => ret []
  | S n' =>
      value <- requestStream this options ;;
      later <- webSocketStream this options n' ;;
      ret (value ++ later)
  end.

(** *** Connectivity check: [testDatasource] *)

Definition NO_LABELS_MESSAGE : string :=
  "Data source connected, but no labels received. Verify that Loki and Promtail is configured properly.".

(** [res && res.data && res.data.values] *)
Definition label_values (res : option Response) : option (list string) :=
  match res with
  | Some r =>
      match res_data r with
      | Some d => rd_values d
      | None => None
      end
  | None => None
  end.

Definition testDatasource_then (res : option Response) : TestResult :=
  match label_values res with
  | Some (_ :: _) =>
      {| status := "success"; message := "Data source connected and labels found." |}
  | _ => {| status := "error"; message := NO_LABELS_MESSAGE |}
  end.

(** The fields the [catch] handler reads off an error object; a
    [TypeError] object has none of them.  A rejection with [undefined] or
    [null] ([RejectedNullish]) has no fields to read: [testDatasource]
    handles it before. *)
Definition err_fields (err : Err) : HttpError :=
  match err with
  | Rejected e => e
  | TypeError | RejectedNullish =>
      {| statusText := None; err_status := None; err_data := None |}
  end.

Definition testDatasource_catch (err : HttpError) : TestResult :=
  let message := "Loki: " in
  let message :=
    match statusText err with
    | Some (String c s) => message +:+ String c s
    | _ => message +:+ "Cannot connect to Loki"
    end in
  let message :=
    match err_status err with
    | Some n => if n =? 0 then message else message +:+ ". " +:+ pretty n
    | None => message
    end in
  let message :=
    match err_data err with
    | Some (ErrObject (Some (String c s))) => message +:+ ". " +:+ String c s
    | Some (ErrObject _) => message +:+ ". [object Object]"
    | Some (ErrText (String c s)) => message +:+ ". " +:+ String c s
    | _ => message
    end in
  {| status := "error"; message := message |}.

(** [testDatasource]: reading [err.statusText] off an [undefined] or
    [null] rejection throws inside the [catch] handler, so the promise is
    then rejected with a [TypeError]. *)
Definition testDatasource `{Services} (this : LokiDatasource) : M TestResult :=
  p <- _request this "/api/prom/label" None ;;
  match p with
  | Ok res => ret (testDatasource_then res)
  | Fail RejectedNullish => throw TypeError
  | Fail err => ret (testDatasource_catch (err_fields err))
  end.

(** *** The remaining methods *)

(** [stream]: the values of the first [n] ticks in live mode, those of
    the single run otherwise. *)
Definition stream `{Services} (this : LokiDatasource)
    (options : DataQueryOptions) (n : nat) : M (list Emission) :=
  t0 <- first_target options ;;
  let liveStream := negb (is_time_series t0) in
  if liveStream then webSocketStream this options n
  else requestStream this options.

(** [s.replace(pattern, replacement)] for a string pattern: the first
    occurrence only. *)
Fixpoint strip_prefix (pattern s : string) : option string :=
  match pattern, s with
  | EmptyString, _ => Some s
  | String a pattern', String b s' =>
      if Ascii.eqb a b then strip_prefix pattern' s' else None
  | String _ _, EmptyString => None
  end.

Fixpoint replace_first (pattern replacement s : string) : string :=
  match strip_prefix pattern s with
  | Some rest => replacement +:+ rest
  | None =>
      match s with
      | String c s' => String c (replace_first pattern replacement s')
      | EmptyString => EmptyString
      end
  end.

(** The object [{data: {data: values}}] that [metadataRequest] resolves
    with. *)
Record Metadata := { md_data : list string }.

(** [metadataRequest]: the parameter object is [{silent: true}], the flag
    kept by its string rendering, which is what [serializeParams] reads. *)
Definition metadataRequest `{Services} (this : LokiDatasource) (url : string)
    : M (Result Metadata) :=
  let apiUrl := replace_first "v1" "prom" url in
  p <- _request this apiUrl (Some [("silent", VStr "true")]) ;;
  ret match p with
      | Ok (Some res) =>
          match res_data res with
          | Some d => Ok {| md_data := default [] (rd_values d) |}
          | None => Fail TypeError
          end
      | Ok None => Fail TypeError
      | Fail e => Fail e
      end.

(** The collaborators of [modifyQuery]: the label injection helper and the
    expression formatter. *)
Class QueryUtils := {
  addLabelToSelector : string -> string -> string -> string;
  formatQuery : string -> string -> string;
}.

Record Action := { act_type : string; act_key : string; act_value : string }.

Definition modifyQuery `{Services} `{QueryUtils} (query : LokiQuery)
    (action : Action) : LokiQuery :=
  let parsed := parseQuery (if truthy_str (expr query) then expr query else "") in
  let selector := ps_query parsed in
  let selector :=
    if String.eqb (act_type action) "ADD_FILTER"
    then addLabelToSelector selector (act_key action) (act_value action)
    else selector in
  let expression := formatQuery selector (ps_regexp parsed) in
  {| expr := expression; format := format query; hide := hide query |}.

Definition getHighlighterExpression `{Services} (query : LokiQuery) : string :=
  ps_regexp (parseQuery (expr query)).

(** ** A concrete environment

    Simple collaborators on which the definitions above can be run: the
    identity interpolation, a parser that splits an expression at its first
    space, a date math that knows "now" only, a merger that keeps every
    entry in stream order, one counting series per call, and a backend
    given by a table of answers. *)

Fixpoint split_space (s : string) : string * string :=
  match s with
  | EmptyString => (EmptyString, EmptyString)
  | String c s' =>
      if Ascii.eqb c " "%char then (EmptyString, s')
      else let p := split_space s' in (String c p.1, p.2)
  end.

Definition sample_parseQuery (input : string) : ParsedSelector :=
  let p := split_space input in {| ps_query := p.1; ps_regexp := p.2 |}.

Definition sample_rows (streams : list LogsStream) : list LogRow :=
  concat
    (map (fun s =>
            map (fun e => {| row_timestampNs := timestamp e; row_line := line e;
                             row_labels := labels s;
                             row_searchFilterTag := search s |})
              (entries s))
       streams).

Definition sample_merge (streams : list LogsStream) (limit : Z) : LogsModel :=
  {| rows := sample_rows streams; series := [] |}.

Definition sample_series (logRows : list LogRow) (interval : Z) : list Series :=
  [ {| series_labels := "count";
       datapoints := [(Z.of_nat (length logRows), interval)] |} ].

Definition sample_services (request : nat -> Request -> Result (option Response))
    (stream : nat -> Request -> list (option Response)) : Services :=
  {| templateSrv_replace := id;
     parseQuery := sample_parseQuery;
     dateMath_parse := fun s _ =>
       if String.eqb s "now" then Some {| valueOf := inject_Z 1700000000000 |}
       else None;
     mergeStreamsToLogs := sample_merge;
     makeSeriesForLogs := sample_series;
     encodeURIComponent := id;
     clock := fun n => 1700000000000 + Z.of_nat n;
     datasourceRequest := request;
     datasourceStream := stream |}.

Definition stream_a : LogsStream :=
  {| labels := "{job=a}"; entries := [ {| line := "first"; timestamp := 100 |} ];
     search := None |}.

Definition stream_b : LogsStream :=
  {| labels := "{job=b}"; entries := [ {| line := "second"; timestamp := 200 |} ];
     search := None |}.

Definition sample_world : World :=
  {| clockReads := 0; calls := []; heap := {[ 1%positive := stream_a; 2%positive := stream_b ]} |}.

Definition streams_response (ls : list loc) : option Response :=
  Some {| res_data := Some {| rd_streams := Some ls; rd_values := None |} |}.

Definition labels_response (vs : list string) : option Response :=
  Some {| res_data := Some {| rd_streams := None; rd_values := Some vs |} |}.

(** The first call answers with stream 1, every later call with stream 2. *)
Definition sample_backend : Services :=
  sample_services
    (fun n _ => Ok (streams_response [Pos.of_nat (S (Nat.min n 1))]))
    (fun n _ => [streams_response [Pos.of_nat (S (Nat.min n 1))]]).

(** A backend that answers every call with the same stream object. *)
Definition shared_backend : Services :=
  sample_services (fun _ _ => Ok (streams_response [1%positive])) (fun _ _ => []).

(** A backend whose label request succeeds with no labels. *)
Definition no_labels_backend : Services :=
  sample_services (fun _ _ => Ok (labels_response [])) (fun _ _ => []).

Definition sample_datasource : LokiDatasource :=
  constructor {| is_url := "http://loki"; jsonData := Some {| jd_maxLines := Some "500" |} |}.

Definition sample_range : TimeRange :=
  {| rg_from := DateMoment {| valueOf := inject_Z 1000 |};
     rg_to := DateString "now" |}.

Definition logs_target (e : string) (hidden : bool) : LokiQuery :=
  {| expr := e; format := Some "logs"; hide := hidden |}.

Definition series_target (e : string) (hidden : bool) : LokiQuery :=
  {| expr := e; format := Some "time_series"; hide := hidden |}.

Definition sample_options (ts : list LokiQuery) : DataQueryOptions :=
  {| targets := ts; range := sample_range; intervalMs := 1000 |}.

(** ** Notions used in the statements *)

(** The exact value of a finite double. *)
Definition SF_value (x : spec_float) : option Q :=
  match x with
  | S754_zero _ => Some 0%Q
  | S754_finite s m e =>
      let n := if s then Z.neg m else Z.pos m in
      Some (if 0 <=? e then inject_Z (n * 2 ^ e) else n # Z.to_pos (2 ^ (- e)))
  | S754_infinity _ | S754_nan => None
  end.

(** The references [tagCopies] reads off a streamed response:
    [result && result.data && result.data.streams]. *)
Definition stream_refs (result : option Response) : list loc :=
  match result with
  | Some r =>
      match res_data r with
      | Some d => default [] (rd_streams d)
      | None => []
      end
  | None => []
  end.

(** A backend that rejects the label request with [undefined]. *)
Definition nullish_backend : Services :=
  sample_services (fun _ _ => Fail RejectedNullish) (fun _ _ => []).

(** The configured setting as [parseInt] sees it. *)
Definition configured_maxLines (settings : InstanceSettings) : option Z :=
  parseInt (jsonData settings ≫= jd_maxLines).

(** The world after one reading of the clock. *)
Definition tick (w : World) : World :=
  {| clockReads := S (clockReads w); calls := calls w; heap := heap w |}.

(** The request parameters, key by key, in the order [Object.keys] lists
    them. *)
Definition targetObject (this : LokiDatasource) (p : ParsedSelector)
    (start end_ : Z) : Obj :=
  [ ("direction", VStr "BACKWARD");
    ("limit", VNum (maxLines this));
    ("regexp", VStr (ps_regexp p));
    ("query", VStr (ps_query p));
    ("start", VNum start);
    ("end", VNum end_) ].

(** The window [prepareQueryTarget] resolves, given the first target and
    the reading of the clock. *)
Definition window `{Services} (t0 : LokiQuery) (options : DataQueryOptions)
    (now : Z) : Result (Z * Z) :=
  if is_time_series t0 then
    match getTime (rg_from (range options)) false with
    | Ok start =>
        match getTime (rg_to (range options)) true with
        | Ok end_ => Ok (start, end_)
        | Fail e => Fail e
        end
    | Fail e => Fail e
    end
  else Ok ((now - 1000) * 1000000, now * 1000000).

(** A result counts as a soft warning when its status is not the one the
    failure handler reports. *)
Definition soft_warning (r : TestResult) : Prop :=
  status r ≠ status (testDatasource_catch (err_fields TypeError)).

(** The expression filter of a raw target, as the builder stores it under
    the key "regexp". *)
Definition target_regexp `{Services} (t : LokiQuery) : Val :=
  VStr (ps_regexp (parseQuery (templateSrv_replace (expr t)))).

(** [q] is the object the builder makes for the raw target [t], for some
    window. *)
Definition built_from `{Services} (this : LokiDatasource) (t : LokiQuery)
    (q : Obj) : Prop :=
  ∃ start end_,
    q = targetObject this (parseQuery (templateSrv_replace (expr t))) start end_.

(** The request [query] issues for a built target. *)
Definition request_of `{Services} (this : LokiDatasource) (q : Obj) : Request :=
  {| req_url := request_url this "/api/prom/query" (Some q);
     req_options := None; req_liveStream := None |}.

(** The request [requestStream] issues for a built target. *)
Definition stream_request_of `{Services} (this : LokiDatasource)
    (options : DataQueryOptions) (q : Obj) : Request :=
  {| req_url := request_url this "/api/prom/query" (Some q);
     req_options := Some options; req_liveStream := Some false |}.


(** The first target that is not suppressed. *)
Definition first_surviving (options : DataQueryOptions) : option LokiQuery :=
  head (List.filter active (targets options)).


(** [result.data.streams || []], for a response with a body. *)
Definition streams_of (result : Response) : list loc :=
  match res_data result with
  | Some d => default [] (rd_streams d)
  | None => []
  end.

Definition set_heap (w : World) (h : gmap loc LogsStream) : World :=
  {| clockReads := clockReads w; calls := calls w; heap := h |}.

(** The store after the streams behind [ls] got [regexp] as their tag. *)
Definition tag_refs (regexp : option Val) (ls : list loc)
    (h : gmap loc LogsStream) : gmap loc LogsStream :=
  foldl (fun h l => alter (tagStream regexp) l h) h ls.

(** The store after every response was tagged for the target at its
    position. *)
Fixpoint tag_all (queryTargets : list Obj) (results : list Response)
    (h : gmap loc LogsStream) : gmap loc LogsStream :=
  match queryTargets, results with
  | q :: qs, r :: rs => tag_all qs rs (tag_refs (obj_get "regexp" q) (streams_of r) h)
  | _, _ => h
  end.

(** The result object for the tagged streams [allStreams], by the format
    of the target [t0]. *)
Definition shape_of `{Services} (this : LokiDatasource) (options : DataQueryOptions)
    (t0 : LokiQuery) (allStreams : list LogsStream) : QueryResult :=
  if is_time_series t0 then
    {| qr_data :=
         map ItemSeries
           (makeSeriesForLogs (rows (mergeStreamsToLogs allStreams (maxLines this)))
              (intervalMs options)) |}
  else {| qr_data := map ItemStream allStreams |}.

(** What reaches the final [map]: the last value of every backend stream,
    in the order of the surviving targets, or nothing at all. *)
Definition joined {A} (streams : list (list A)) : list A :=
  mergeMap id (combineLatest id (forkJoin streams)).

(** [r] has the shape the format of [t] asks for, whatever the streams. *)
Definition shaped_by `{Services} (this : LokiDatasource) (options : DataQueryOptions)
    (t : LokiQuery) (r : QueryResult) : Prop :=
  ∃ allStreams, r = shape_of this options t allStreams.

(** A hidden time-series target ahead of a visible logs target. *)
Definition mixed_options : DataQueryOptions :=
  sample_options [series_target "{job=a}" true; logs_target "{job=b} err" false].

(** A visible target ahead of a hidden one. *)
Definition trailing_hidden_options : DataQueryOptions :=
  sample_options [logs_target "{job=a} x" false; logs_target "{job=b} err" true].

(** Two visible logs targets. *)
Definition two_logs_options : DataQueryOptions :=
  sample_options [logs_target "{job=a} x" false; logs_target "{job=b} err" false].

(** The target built in live mode at the clock reading [n]. *)
Definition live_target `{Services} (this : LokiDatasource) (n : nat)
    (t : LokiQuery) : Obj :=
  targetObject this (parseQuery (templateSrv_replace (expr t)))
    ((clock n - 1000) * 1000000) (clock n * 1000000).

(** The world after [k] readings of the clock. *)
Definition advance (k : nat) (w : World) : World :=
  {| clockReads := clockReads w + k; calls := calls w; heap := heap w |}.

(** The backend streams of a batch, tagged: one per built target, the
    first call being number [n]. *)
Definition tagged_streams `{Services} (this : LokiDatasource)
    (options : DataQueryOptions) (h : gmap loc LogsStream) (n : nat)
    (qts : list Obj) : list (list (list LogsStream)) :=
  imap (λ i q, map (tagCopies h q)
                 (datasourceStream (n + i) (stream_request_of this options q)))
    qts.

(** A formatter that joins selector and regexp with a space, and a label
    helper that appends the pair to the selector. *)
Definition sample_utils : QueryUtils :=
  {| addLabelToSelector := fun selector key value =>
       selector +:+ "{" +:+ key +:+ "=" +:+ value +:+ "}";
     formatQuery := fun selector regexp =>
       if truthy_str regexp then selector +:+ " " +:+ regexp else selector |}.

(** Two visible time-series targets over a range whose end is not a date
    expression the date math knows. *)
Definition bad_range_options : DataQueryOptions :=
  {| targets := [series_target "{job=a}" false; series_target "{job=b}" false];
     range := {| rg_from := DateString "now"; rg_to := DateString "tomorrow" |};
     intervalMs := 1000 |}.

(** A backend that rejects every request with a 502. *)
Definition bad_gateway : HttpError :=
  {| statusText := Some "Bad Gateway"; err_status := Some 502; err_data := None |}.

Definition rejecting_backend : Services :=
  sample_services (fun _ _ => Fail (Rejected bad_gateway)) (fun _ _ => []).

(** A backend whose streams complete without a value, and one whose
    requests are fulfilled without a response. *)
Definition silent_backend : Services :=
  sample_services (fun _ _ => Ok None) (fun _ _ => []).

(** A backend that answers label requests with two values. *)
Definition labels_backend : Services :=
  sample_services (fun _ _ => Ok (labels_response ["job"; "instance"]))
    (fun _ _ => []).

(** * Properties *)

(** ** Objects *)

Lemma obj_get_set_eq (k : string) (v : Val) (o : Obj) :
  obj_get k (obj_set k v o) = Some v.
Proof.
  induction o as [|[k' v'] o IH]; simpl.
  - by rewrite decide_True.
  - destruct (decide (k' = k)) as [->|Hne]; simpl.
    + by rewrite decide_True.
    + by rewrite decide_False.
Qed.

Lemma obj_get_set_ne (k k' : string) (v : Val) (o : Obj) :
  k ≠ k' → obj_get k' (obj_set k v o) = obj_get k' o.
Proof.
  intros Hne. induction o as [|[k0 v0] o IH]; simpl.
  - by rewrite decide_False.
  - destruct (decide (k0 = k)) as [->|Hk]; simpl.
    + by rewrite !decide_False.
    + destruct (decide (k0 = k')); [done | apply IH].
Qed.

(** Spreading keeps the keys of the base in place: a later source only
    replaces values or appends keys. *)
Lemma obj_spread_cons (base : Obj) (kv : string * Val) (ext : Obj) :
  obj_spread base (kv :: ext) = obj_spread (obj_set kv.1 kv.2 base) ext.
Proof. reflexivity. Qed.

(** ** Construction *)

Lemma num_or_nonzero (a : option Z) (b : Z) : b ≠ 0 → num_or a b ≠ 0.
Proof.
  intros Hb. destruct a as [n|]; simpl; [|done].
  destruct (Z.eqb_spec n 0); congruence.
Qed.

Lemma constructor_maxLines (settings : InstanceSettings) :
  maxLines (constructor settings) =
  num_or (configured_maxLines settings) DEFAULT_MAX_LINES.
Proof.
  unfold constructor, configured_maxLines.
  by destruct (jsonData settings) as [[m]|].
Qed.

(** ** The time resolver *)

Lemma toNanos_integer (n : Z) :
  toNanos {| valueOf := inject_Z n |} = n * 1000000.
Proof.
  unfold toNanos; simpl.
  rewrite <- (Qceiling_Z (n * 1000000)).
  apply Qceiling_comp. by rewrite inject_Z_mult.
Qed.

Lemma toNanos_subtract_seconds (n k : Z) :
  toNanos (subtract_seconds {| valueOf := inject_Z n |} k) = (n - k * 1000) * 1000000.
Proof.
  rewrite <- toNanos_integer. unfold toNanos, subtract_seconds; simpl.
  apply Qceiling_comp.
  unfold Zminus. rewrite inject_Z_plus, inject_Z_opp. reflexivity.
Qed.

Lemma SF_ceil_bounds (x : spec_float) (t : Z) :
  SF_ceil x = Some t →
  ∃ q, SF_value x = Some q ∧ (inject_Z (t - 1) < q)%Q ∧ (q <= inject_Z t)%Q.
Proof.
  destruct x as [s|s| |s m e]; simpl; try done.
  - intros [= <-]. exists 0%Q. by repeat split.
  - set (n := if s then Z.neg m else Z.pos m).
    destruct (Z.leb_spec 0 e) as [He|He]; intros [= <-].
    + eexists. split; [reflexivity|]. split.
      * rewrite <- Zlt_Qlt. lia.
      * apply Qle_refl.
    + eexists. split; [reflexivity|].
      assert (0 < 2 ^ (- e)) as Hd by (apply Z.pow_pos_nonneg; lia).
      pose proof (Z.div_mod (- n) (2 ^ (- e)) ltac:(lia)) as Hdm.
      pose proof (Z.mod_pos_bound (- n) (2 ^ (- e)) Hd) as Hr.
      unfold Qlt, Qle. simpl. rewrite Z2Pos.id by done. nia.
Qed.

(** C6 as stated fails: for the absolute timestamp 1700000000001 ms the
    resolver returns 1700000000000999936, the double nearest to the
    product, which lies below the exact product 1700000000001000000 and so
    is not its ceiling. *)
Lemma C6_counterexample :
  getTime_double (fun _ _ => None) (DoubleValue 1700000000001) false
  = Ok (Some 1700000000000999936) ∧
  1700000000000999936 < Qceiling (inject_Z 1700000000001 * inject_Z 1000000).
Proof. split; [reflexivity | by vm_compute]. Qed.

(** C6 (amended). The time resolver returns [Math.ceil] of the double
    product of the epoch value in milliseconds and 1,000,000: the least
    integer not below that product as rounded to a double (never its
    floor), which need not be the ceiling of the exact product.  For an
    absolute timestamp the result does not depend on [roundUp]; a relative
    expression is first handed to the date-math collaborator with the same
    [roundUp], and resolved like an absolute timestamp from there (a
    [TypeError] when the collaborator returns nothing). *)
Theorem C6_getTime_double_ceiling (parse : string → bool → option float) :
  (∀ (v : float) (roundUp : bool) (t : Z),
      getTime_double parse (DoubleValue v) roundUp = Ok (Some t) →
      ∃ q, SF_value (Prim2SF (v * 1000000)%float) = Some q ∧
           (inject_Z (t - 1) < q)%Q ∧ (q <= inject_Z t)%Q) ∧
  (∀ (v : float) (roundUp : bool),
      getTime_double parse (DoubleValue v) roundUp = Ok None ↔
      SF_value (Prim2SF (v * 1000000)%float) = None) ∧
  (∀ v : float,
      getTime_double parse (DoubleValue v) true
      = getTime_double parse (DoubleValue v) false) ∧
  (∀ (s : string) (roundUp : bool),
      getTime_double parse (DoubleString s) roundUp =
      match parse s roundUp with
      | Some v => getTime_double parse (DoubleValue v) roundUp
      | None => Fail TypeError
      end).
Proof.
  split; [|split; [|split]].
  - intros v roundUp t [= Ht]. by apply SF_ceil_bounds.
  - intros v roundUp. simpl. unfold Math_ceil.
    destruct (Prim2SF (v * 1000000)%float) as [s|s| |s m e]; simpl; split; try done.
  - reflexivity.
  - intros s roundUp. simpl. by destruct (parse s roundUp).
Qed.

Lemma C6_getTime_double_ceiling_witness :
  ∃ q, SF_value (Prim2SF (1700000000001 * 1000000)%float) = Some q ∧
       (inject_Z (1700000000000999936 - 1) < q)%Q ∧
       (q <= inject_Z 1700000000000999936)%Q.
Proof.
  exact (proj1 (C6_getTime_double_ceiling (fun _ _ => None))
           1700000000001%float false 1700000000000999936 eq_refl).
Defined.

(** The rounding of the product also shows on fractional values: for the
    double nearest to 0.000123 the product is a little above 123, and the
    resolver returns 124. *)
Example getTime_double_fraction :
  getTime_double (fun _ _ => None) (DoubleValue 0x1.01f31f46ed246p-13) true
  = Ok (Some 124).
Proof. reflexivity. Qed.

(** ** The target builder *)

Lemma spread_defaults (this : LokiDatasource) (p : ParsedSelector) (start end_ : Z) :
  obj_set "limit" (VNum (maxLines this))
    (obj_set "end" (VNum end_)
       (obj_set "start" (VNum start)
          (obj_spread (obj_spread [] DEFAULT_QUERY_PARAMS) (parsed_obj p))))
  = targetObject this p start end_.
Proof. reflexivity. Qed.

Lemma prepareQueryTarget_unfold `{Services} (this : LokiDatasource)
    (target : LokiQuery) (options : DataQueryOptions) (w : World) :
  prepareQueryTarget this target options w =
  match targets options !! 0%nat with
  | None => (Fail TypeError, w)
  | Some t0 =>
      match window t0 options (clock (clockReads w)) with
      | Ok (start, end_) =>
          (Ok (targetObject this (parseQuery (templateSrv_replace (expr target)))
                 start end_), tick w)
      | Fail e => (Fail e, tick w)
      end
  end.
Proof.
  unfold prepareQueryTarget, first_target, window, bind, defined, ret, throw, lift, moment.
  destruct (targets options !! 0%nat) as [t0|]; [|done].
  destruct (is_time_series t0); simpl.
  - destruct (getTime (rg_from (range options)) false); [|done].
    by destruct (getTime (rg_to (range options)) true).
  - pose proof (toNanos_subtract_seconds (clock (clockReads w)) 1) as Hs.
    pose proof (toNanos_integer (clock (clockReads w))) as He.
    rewrite Hs, He. reflexivity.
Qed.

Lemma prepareQueryTarget_world `{Services} (this : LokiDatasource)
    (target : LokiQuery) (options : DataQueryOptions) (w : World) :
  (prepareQueryTarget this target options w).2 = w ∨
  (prepareQueryTarget this target options w).2 = tick w.
Proof.
  rewrite prepareQueryTarget_unfold.
  destruct (targets options !! 0%nat); [|by left].
  destruct (window _ _ _) as [[??]|]; by right.
Qed.



(** C3. Every target the builder constructs has direction BACKWARD and the
    configured [maxLines] as its limit, in place of the default limit the
    spread parameters carried. *)
Theorem C3_direction_and_limit `{Services} (this : LokiDatasource)
    (target : LokiQuery) (options : DataQueryOptions) (w w' : World) (obj : Obj) :
  prepareQueryTarget this target options w = (Ok obj, w') →
  obj_get "direction" obj = Some (VStr "BACKWARD") ∧
  obj_get "limit" obj = Some (VNum (maxLines this)) ∧
  obj_get "limit"
    (obj_spread (obj_spread [] DEFAULT_QUERY_PARAMS)
       (parsed_obj (parseQuery (templateSrv_replace (expr target)))))
  = Some (VNum DEFAULT_MAX_LINES).
Proof.
  rewrite prepareQueryTarget_unfold.
  destruct (targets options !! 0%nat) as [t0|]; [|done].
  destruct (window _ _ _) as [[start end_]|]; [|done].
  intros [= <- _]. by repeat split.
Qed.

Lemma C3_direction_and_limit_witness :
  ∃ obj, obj_get "direction" obj = Some (VStr "BACKWARD") ∧
         obj_get "limit" obj = Some (VNum 500).
Proof.
  eexists.
  pose proof (C3_direction_and_limit (H:=sample_backend) sample_datasource
                (logs_target "{job=a} err" false)
                (sample_options [logs_target "{job=a} err" false])
                sample_world _ _ eq_refl) as (Hd & Hl & _).
  split; [exact Hd | exact Hl].
Defined.

(** ** Suppressed targets *)

Lemma active_suppressed (t : LokiQuery) : active t = negb (suppressed t).
Proof. unfold active, suppressed. by destruct (truthy_str (expr t)), (hide t). Qed.

Lemma filter_active_all_suppressed (ts : list LokiQuery) :
  Forall (λ t, suppressed t = true) ts → List.filter active ts = [].
Proof.
  induction 1 as [|t ts Ht _ IH]; [done|].
  simpl. by rewrite active_suppressed, Ht.
Qed.

(** C5. When every supplied target is suppressed, [query] resolves at once
    with [{data: []}]: the world is left as it was, so no backend request
    was issued. *)
Theorem C5_all_suppressed_short_circuit `{Services} (this : LokiDatasource)
    (options : DataQueryOptions) (w : World) :
  Forall (λ t, suppressed t = true) (targets options) →
  query this options w = (Ok {| qr_data := [] |}, w) ∧
  calls (query this options w).2 = calls w.
Proof.
  intros Hall. unfold query.
  rewrite (filter_active_all_suppressed _ Hall). by split.
Qed.

Lemma C5_all_suppressed_short_circuit_witness :
  let options := sample_options [logs_target "{job=a}" true; logs_target "" false] in
  query (H:=sample_backend) sample_datasource options sample_world
  = (Ok {| qr_data := [] |}, sample_world).
Proof.
  intros options.
  refine (proj1 (C5_all_suppressed_short_circuit (H:=sample_backend)
                   sample_datasource options sample_world _)).
  repeat constructor.
Defined.

(** ** The connectivity check *)

Lemma testDatasource_catch_status (err : HttpError) :
  status (testDatasource_catch err) = "error".
Proof. reflexivity. Qed.

Lemma testDatasource_catch_message (err : HttpError) :
  ∃ rest, message (testDatasource_catch err) = String "L" rest.
Proof.
  destruct err as [[[|c1 s1]|] [n|] [[[[|c2 s2]|]|[|c3 s3]]|]];
    unfold testDatasource_catch; simpl;
    try destruct (n =? 0); simpl; eauto.
Qed.

(** C9 as stated fails: with a label request that succeeds with no labels,
    the result carries the very status of a failed request. *)
Lemma C9_counterexample :
  ¬ ∃ r, (testDatasource (H:=no_labels_backend) sample_datasource sample_world).1 = Ok r ∧
         soft_warning r.
Proof. intros (r & [= <-] & Hsoft). by apply Hsoft. Qed.

(** C9 (amended). When the label request succeeds with no labels,
    [testDatasource] resolves (it does not throw) with status "error" and
    the message "Data source connected, but no labels received. ...": the
    status is the one a failed request gets, and only the message, which
    for a failed request starts with "Loki: ", tells the two apart. *)
Theorem C9_no_labels_is_error `{Services} (this : LokiDatasource) (w : World)
    (res : option Response) :
  datasourceRequest (length (calls w))
    {| req_url := request_url this "/api/prom/label" None;
       req_options := None; req_liveStream := None |} = Ok res →
  default [] (label_values res) = [] →
  (testDatasource this w).1 = Ok {| status := "error"; message := NO_LABELS_MESSAGE |} ∧
  ∀ err : HttpError,
    status (testDatasource_catch err) = "error" ∧
    message (testDatasource_catch err) ≠ NO_LABELS_MESSAGE.
Proof.
  intros Hres Hnone. split.
  - unfold testDatasource, _request, bind, ret; simpl. rewrite Hres.
    unfold testDatasource_then.
    by destruct (label_values res) as [[|v vs]|].
  - intros err. split; [reflexivity|].
    destruct (testDatasource_catch_message err) as [rest ->]. discriminate.
Qed.

Lemma C9_no_labels_is_error_witness :
  (testDatasource (H:=no_labels_backend) sample_datasource sample_world).1
  = Ok {| status := "error"; message := NO_LABELS_MESSAGE |}.
Proof.
  exact (proj1 (C9_no_labels_is_error (H:=no_labels_backend) sample_datasource
                  sample_world (labels_response []) eq_refl eq_refl)).
Defined.

(** ** The configured limit *)

(** C10 as stated fails: a setting that parses to a negative integer is
    kept, so the limit is not positive. *)
Lemma C10_counterexample :
  ¬ 0 < maxLines (constructor {| is_url := "http://loki";
                                 jsonData := Some {| jd_maxLines := Some "-5" |} |}).
Proof. vm_compute. discriminate. Qed.

(** C10 (amended). On construction [maxLines] is
    [parseInt(jsonData.maxLines, 10)] when that is a nonzero number, and
    1000 when [jsonData] is absent or its [maxLines] is missing, not a
    number, or parses to 0; so the limit of every target built afterwards
    is a nonzero number (a negative one when the setting parses to a
    negative integer). *)
Theorem C10_maxLines_default `{Services} (settings : InstanceSettings) :
  (∀ n, configured_maxLines settings = Some n → n ≠ 0 →
        maxLines (constructor settings) = n) ∧
  (jsonData settings = None ∨
   (∃ d, jsonData settings = Some d ∧ jd_maxLines d = None) ∨
   configured_maxLines settings = None ∨
   configured_maxLines settings = Some 0 →
   maxLines (constructor settings) = DEFAULT_MAX_LINES) ∧
  maxLines (constructor settings) ≠ 0 ∧
  (∀ target options w obj w',
     prepareQueryTarget (constructor settings) target options w = (Ok obj, w') →
     ∃ n, obj_get "limit" obj = Some (VNum n) ∧ n ≠ 0).
Proof.
  pose proof (constructor_maxLines settings) as Hm.
  assert (maxLines (constructor settings) ≠ 0) as Hnz.
  { rewrite Hm. by apply num_or_nonzero. }
  repeat split; [| |exact Hnz|].
  - intros n Hn Hne. rewrite Hm, Hn. simpl.
    by destruct (Z.eqb_spec n 0).
  - rewrite Hm. unfold configured_maxLines.
    intros [->|[(d & -> & Hd)|[->| ->]]]; simpl; try done.
    by rewrite Hd.
  - intros target options w obj w' Hprep. exists (maxLines (constructor settings)).
    split; [|exact Hnz].
    rewrite prepareQueryTarget_unfold in Hprep.
    destruct (targets options !! 0%nat); [|done].
    destruct (window _ _ _) as [[??]|]; [|done].
    by injection Hprep as <- _.
Qed.

Lemma C10_maxLines_default_witness :
  maxLines (constructor {| is_url := "http://loki";
                           jsonData := Some {| jd_maxLines := Some "250 lines" |} |}) = 250 ∧
  maxLines (constructor {| is_url := "http://loki"; jsonData := None |}) = 1000 ∧
  maxLines (constructor {| is_url := "http://loki";
                           jsonData := Some {| jd_maxLines := Some "0" |} |}) = 1000.
Proof.
  split; [|split].
  - apply (proj1 (C10_maxLines_default (H:=sample_backend) _) 250); [reflexivity|lia].
  - apply (proj1 (proj2 (C10_maxLines_default (H:=sample_backend) _))). by left.
  - apply (proj1 (proj2 (C10_maxLines_default (H:=sample_backend) _))).
    right; right; right. reflexivity.
Defined.

(** ** The one-shot executor *)

Lemma bind_ok {A B} (m : M A) (f : A → M B) (w w' : World) (b : B) :
  bind m f w = (Ok b, w') →
  ∃ a w1, m w = (Ok a, w1) ∧ f a w1 = (Ok b, w').
Proof.
  unfold bind. destruct (m w) as [[a|e] w1]; [eauto | discriminate].
Qed.

Lemma array_map_prepare_inv `{Services} (this : LokiDatasource)
    (options : DataQueryOptions) (ts : list LokiQuery) (w w1 : World)
    (qts : list Obj) :
  array_map (fun target => prepareQueryTarget this target options) ts w = (Ok qts, w1) →
  Forall2 (built_from this) ts qts ∧
  calls w1 = calls w ∧ heap w1 = heap w.
Proof.
  revert w qts. induction ts as [|t ts IH]; intros w qts; simpl.
  - intros [= <- <-]. by repeat split.
  - intros Hrun.
    apply bind_ok in Hrun as (q & wa & Hq & Hrun).
    apply bind_ok in Hrun as (qs & wb & Hqs & Hrun).
    injection Hrun as <- <-.
    destruct (IH _ _ Hqs) as (Hall & Hc & Hh).
    rewrite prepareQueryTarget_unfold in Hq.
    destruct (targets options !! 0%nat); [|done].
    destruct (window _ _ _) as [[start end_]|]; [|done].
    injection Hq as <- <-.
    repeat split; [|done..].
    constructor; [by exists start, end_ | exact Hall].
Qed.

Lemma built_from_regexp `{Services} (this : LokiDatasource) (ts : list LokiQuery)
    (qts : list Obj) :
  Forall2 (built_from this) ts qts →
  Forall2 (λ t q, obj_get "regexp" q = Some (target_regexp t)) ts qts.
Proof.
  intros Hall. eapply Forall2_impl; [exact Hall|].
  by intros t q (start & end_ & ->).
Qed.

Lemma array_map_request `{Services} (this : LokiDatasource) (qts : list Obj)
    (w : World) :
  array_map (fun target => _request this "/api/prom/query" (Some target)) qts w =
  (Ok (imap (λ i q, datasourceRequest (length (calls w) + i) (request_of this q)) qts),
   {| clockReads := clockReads w;
      calls := calls w ++ map (request_of this) qts;
      heap := heap w |}).
Proof.
  revert w. induction qts as [|q qts IH]; intros w; simpl.
  - unfold ret. rewrite app_nil_r. by destruct w.
  - unfold bind at 1. unfold _request at 1.
    unfold bind at 1. rewrite IH. unfold ret; simpl.
    rewrite length_app; simpl. rewrite <- app_assoc; simpl.
    f_equal. f_equal. f_equal.
    + rewrite Nat.add_0_r. reflexivity.
    + apply imap_ext. intros i x _. simpl. f_equal. lia.
Qed.

Lemma Promise_all_ok {A} (ps : list (Result A)) (l : list A) :
  Promise_all ps = Ok l → ps = map Ok l.
Proof.
  revert l. induction ps as [|[a|e] ps IH]; intros l; simpl.
  - by intros [= <-].
  - destruct (Promise_all ps) as [l'|]; [|done].
    intros [= <-]. simpl. f_equal. by apply IH.
  - done.
Qed.

Lemma tagStreams_run (q : Obj) (ls acc : list loc) (w : World) :
  tagStreams (Some q) ls acc w =
  (Ok (acc ++ ls), set_heap w (tag_refs (obj_get "regexp" q) ls (heap w))).
Proof.
  revert acc w. induction ls as [|l ls IH]; intros acc w; simpl.
  - unfold ret. rewrite app_nil_r. by destruct w.
  - unfold bind, defined, ret, modify_heap; simpl.
    rewrite IH. simpl. by rewrite <- app_assoc.
Qed.

Lemma collectStreams_inv (qts : list Obj) (i : nat)
    (results : list (option Response)) (acc out : list loc) (w w' : World) :
  (length results + i ≤ length qts)%nat →
  collectStreams qts i results acc w = (Ok out, w') →
  ∃ rs, results = map Some rs ∧
        out = acc ++ concat (map streams_of rs) ∧
        w' = set_heap w (tag_all (drop i qts) rs (heap w)).
Proof.
  revert i acc w. induction results as [|[r|] results IH]; intros i acc w Hlen; simpl.
  - intros [= <- <-]. exists []. simpl. rewrite app_nil_r.
    repeat split. destruct (drop i qts), w; done.
  - destruct (lookup_lt_is_Some_2 qts i) as [q Hq]; [simpl in Hlen; lia|].
    rewrite Hq. intros Hrun.
    apply bind_ok in Hrun as (r' & wa & Hr & Hrun).
    injection Hr as <- <-.
    apply bind_ok in Hrun as (acc' & w1 & Hstep & Hrun).
    assert (acc' = acc ++ streams_of r ∧
            w1 = set_heap w (tag_refs (obj_get "regexp" q) (streams_of r) (heap w)))
      as [-> Hw1].
    { unfold streams_of. destruct (res_data r) as [d|].
      - rewrite tagStreams_run in Hstep. by injection Hstep as <- <-.
      - injection Hstep as <- <-. rewrite app_nil_r. by destruct w. }
    apply IH in Hrun as (rs & -> & -> & ->); [|simpl in Hlen; lia].
    exists (r :: rs). simpl. rewrite <- app_assoc.
    repeat split. rewrite (drop_S _ _ _ Hq). simpl. by rewrite Hw1.
  - unfold bind, defined, throw. done.
Qed.

Lemma shapeResult_run `{Services} (this : LokiDatasource) (options : DataQueryOptions)
    (t0 : LokiQuery) (allStreams : list LogsStream) (w : World) :
  targets options !! 0%nat = Some t0 →
  shapeResult this options allStreams w = (Ok (shape_of this options t0 allStreams), w).
Proof.
  intros Ht0. unfold shapeResult, first_target, bind, defined, shape_of.
  rewrite Ht0. simpl. destruct (is_time_series t0); reflexivity.
Qed.

Lemma first_target_of_survivors (ts : list LokiQuery) :
  List.filter active ts ≠ [] → ∃ t0, ts !! 0%nat = Some t0.
Proof. destruct ts as [|t0 ts]; [done | eauto]. Qed.

(** What a fulfilled [query] with at least one surviving target did. *)
Lemma query_inv `{Services} (this : LokiDatasource) (options : DataQueryOptions)
    (w w' : World) (r : QueryResult) :
  query this options w = (Ok r, w') →
  List.filter active (targets options) ≠ [] →
  ∃ t0 qts results,
    targets options !! 0%nat = Some t0 ∧
    Forall2 (built_from this) (List.filter active (targets options)) qts ∧
    map (λ res, Ok (Some res)) results =
      imap (λ i q, datasourceRequest (length (calls w) + i) (request_of this q)) qts ∧
    calls w' = calls w ++ map (request_of this) qts ∧
    heap w' = tag_all qts results (heap w) ∧
    r = shape_of this options t0 (deref (heap w') (concat (map streams_of results))).
Proof.
  intros Hrun Hne.
  destruct (first_target_of_survivors _ Hne) as [t0 Ht0].
  unfold query in Hrun.
  apply bind_ok in Hrun as (qts & w1 & Hprep & Hrun).
  destruct (array_map_prepare_inv _ _ _ _ _ _ Hprep) as (Hall & Hc1 & Hh1).
  assert (length qts ≠ 0%nat) as Hlen.
  { rewrite <- (Forall2_length _ _ _ Hall).
    by destruct (List.filter active (targets options)). }
  destruct (Nat.eqb_spec (length qts) 0) as [|_]; [done|].
  apply bind_ok in Hrun as (queries & w2 & Hreq & Hrun).
  rewrite array_map_request in Hreq. injection Hreq as <- <-.
  apply bind_ok in Hrun as (results & w3 & Hall' & Hrun).
  unfold lift in Hall'. injection Hall' as Hall' <-.
  apply Promise_all_ok in Hall'.
  apply bind_ok in Hrun as (allStreams & w4 & Hcollect & Hrun).
  apply collectStreams_inv in Hcollect as (rs & -> & -> & ->).
  2:{ apply (f_equal length) in Hall'.
      rewrite length_imap, !length_map in Hall'. simpl. lia. }
  apply bind_ok in Hrun as (h & w5 & Hheap & Hrun).
  injection Hheap as <- <-.
  rewrite (shapeResult_run _ _ t0) in Hrun by done.
  injection Hrun as <- <-.
  exists t0, qts, rs. simpl. rewrite drop_0, Hc1, Hh1.
  repeat split; try done.
  rewrite <- Hc1, Hall', map_map. reflexivity.
Qed.

(** ** Tags in the store *)

Lemma tag_refs_lookup_notin (rg : option Val) (ls : list loc)
    (h : gmap loc LogsStream) (l : loc) :
  l ∉ ls → tag_refs rg ls h !! l = h !! l.
Proof.
  revert h. induction ls as [|l' ls IH]; intros h Hl; [done|].
  apply not_elem_of_cons in Hl as [Hne Hl]. simpl.
  rewrite IH by done. by rewrite lookup_alter_ne.
Qed.

Lemma tag_refs_lookup_in (rg : option Val) (ls : list loc)
    (h : gmap loc LogsStream) (l : loc) :
  l ∈ ls → tag_refs rg ls h !! l = tagStream rg <$> h !! l.
Proof.
  revert h. induction ls as [|l' ls IH]; intros h Hl; [by apply elem_of_nil in Hl|].
  simpl. destruct (decide (l ∈ ls)) as [Hin|Hnotin].
  - rewrite IH by done. destruct (decide (l' = l)) as [->|Hne].
    + rewrite lookup_alter_eq. by destruct (h !! l).
    + by rewrite lookup_alter_ne.
  - apply elem_of_cons in Hl as [->|Hin]; [|done].
    rewrite tag_refs_lookup_notin by done. by rewrite lookup_alter_eq.
Qed.

Lemma tag_all_lookup_notin (qts : list Obj) (rs : list Response)
    (h : gmap loc LogsStream) (l : loc) :
  l ∉ concat (map streams_of rs) → tag_all qts rs h !! l = h !! l.
Proof.
  revert qts h. induction rs as [|r rs IH]; intros [|q qts] h Hl; try done.
  simpl in *. apply not_elem_of_app in Hl as [Hr Hrs].
  rewrite IH by done. by apply tag_refs_lookup_notin.
Qed.

Lemma deref_app (h : gmap loc LogsStream) (ls ks : list loc) :
  deref h (ls ++ ks) = deref h ls ++ deref h ks.
Proof. apply omap_app. Qed.

Lemma deref_tagged (rg : option Val) (h h0 : gmap loc LogsStream) (ls : list loc) :
  (∀ l, l ∈ ls → h !! l = tagStream rg <$> h0 !! l) →
  deref h ls = map (tagStream rg) (deref h0 ls).
Proof.
  induction ls as [|l ls IH]; intros Hls; [done|].
  assert (deref h ls = map (tagStream rg) (deref h0 ls)) as IH'.
  { apply IH. intros l' Hl'. apply Hls. by right. }
  unfold deref in *. simpl. rewrite (Hls l) by left.
  destruct (h0 !! l); simpl; [f_equal|]; exact IH'.
Qed.

(** When no stream object is shared between responses, the streams read
    back after the loop are, response by response, the original ones tagged
    with the regexp of the target at the response's position. *)
Lemma deref_tag_all (qts : list Obj) (rs : list Response)
    (h h0 : gmap loc LogsStream) :
  length rs = length qts →
  NoDup (concat (map streams_of rs)) →
  (∀ l, l ∈ concat (map streams_of rs) → h !! l = h0 !! l) →
  deref (tag_all qts rs h) (concat (map streams_of rs)) =
  concat (zip_with (λ q r, map (tagStream (obj_get "regexp" q)) (deref h0 (streams_of r)))
            qts rs).
Proof.
  revert qts h. induction rs as [|r rs IH]; intros [|q qts] h Hlen Hnd Hagree; try done.
  simpl in *. apply NoDup_app in Hnd as (Hnd1 & Hdisj & Hnd2).
  rewrite deref_app. f_equal.
  - apply deref_tagged. intros l Hl.
    rewrite tag_all_lookup_notin by auto.
    rewrite tag_refs_lookup_in by done.
    rewrite Hagree; [done | apply elem_of_app; by left].
  - apply IH; [lia | done |].
    intros l Hl. rewrite tag_refs_lookup_notin.
    + apply Hagree, elem_of_app. by right.
    + intros Hin. by apply (Hdisj l).
Qed.

(** Shared or not, a stream in the store after the loop carries the
    regexp of a target whose response returned it. *)
Lemma tag_all_lookup_some (qts : list Obj) (rs : list Response)
    (h : gmap loc LogsStream) (l : loc) (s : LogsStream) :
  length rs = length qts →
  l ∈ concat (map streams_of rs) →
  tag_all qts rs h !! l = Some s →
  ∃ i q r, qts !! i = Some q ∧ rs !! i = Some r ∧ l ∈ streams_of r ∧
           search s = obj_get "regexp" q.
Proof.
  revert qts h. induction rs as [|r rs IH]; intros [|q qts] h Hlen Hl Hs; try done.
  { by apply elem_of_nil in Hl. }
  simpl in *.
  destruct (decide (l ∈ concat (map streams_of rs))) as [Hlater|Hnot].
  - destruct (IH qts _ ltac:(lia) Hlater Hs) as (i & q' & r' & Hq & Hr & Hin & Htag).
    by exists (S i), q', r'.
  - apply elem_of_app in Hl as [Hl|Hl]; [|done].
    rewrite tag_all_lookup_notin, tag_refs_lookup_in in Hs by done.
    destruct (h !! l) as [s0|]; [|done]. injection Hs as <-.
    by exists 0%nat, q, r.
Qed.

Lemma zip_with_regexp `{Services} (ts : list LokiQuery) (qts : list Obj)
    (rs : list Response) (h : gmap loc LogsStream) :
  Forall2 (λ t q, obj_get "regexp" q = Some (target_regexp t)) ts qts →
  zip_with (λ q r, map (tagStream (obj_get "regexp" q)) (deref h (streams_of r))) qts rs =
  zip_with (λ t r, map (tagStream (Some (target_regexp t))) (deref h (streams_of r))) ts rs.
Proof.
  intros Hall. revert rs. induction Hall as [|t q ts qts Hq _ IH]; intros [|r rs]; try done.
  simpl. by rewrite Hq, IH.
Qed.

(** The tags [query] writes: the i-th response is the backend's answer to
    the i-th request, made for the i-th surviving target, and every stream
    of the merged output has as [search] the regexp filter of a target
    whose response returned it.  When no stream object occurs twice among
    the responses, the merged output holds, response by response, the
    returned streams, each tagged with the regexp of the target at the
    response's position. *)
Lemma query_search_tag `{Services} (this : LokiDatasource)
    (options : DataQueryOptions) (w w' : World) (r : QueryResult) :
  query this options w = (Ok r, w') →
  let survivors := List.filter active (targets options) in
  ∃ results : list Response,
    length results = length survivors ∧
    (∀ i res, results !! i = Some res →
       ∃ t q, survivors !! i = Some t ∧ built_from this t q ∧
              calls w' !! (length (calls w) + i)%nat = Some (request_of this q) ∧
              datasourceRequest (length (calls w) + i) (request_of this q)
              = Ok (Some res)) ∧
    (∀ l s, l ∈ concat (map streams_of results) → heap w' !! l = Some s →
       ∃ i t res, survivors !! i = Some t ∧ results !! i = Some res ∧
                  l ∈ streams_of res ∧ search s = Some (target_regexp t)) ∧
    (NoDup (concat (map streams_of results)) →
     let tagged :=
       concat (zip_with
                 (λ t res, map (tagStream (Some (target_regexp t)))
                             (deref (heap w) (streams_of res)))
                 survivors results) in
     deref (heap w') (concat (map streams_of results)) = tagged ∧
     ∀ t0, targets options !! 0%nat = Some t0 →
           is_time_series t0 = false →
           qr_data r = map ItemStream tagged).
Proof.
  intros Hrun survivors.
  destruct (decide (survivors = [])) as [Hnil|Hne].
  - unfold query in Hrun. fold survivors in Hrun. rewrite Hnil in Hrun.
    injection Hrun as <- <-. exists []. rewrite Hnil.
    split; [done|]. split; [done|]. split; [|done].
    intros l s Hl. by apply elem_of_nil in Hl.
  - destruct (query_inv _ _ _ _ _ Hrun Hne)
      as (t0 & qts & rs & Ht0 & Hall & Hresp & Hcalls & Hheap & ->).
    fold survivors in Hall.
    assert (length rs = length qts) as Hlen.
    { apply (f_equal length) in Hresp. by rewrite length_map, length_imap in Hresp. }
    exists rs. split; [|split; [|split]].
    + by rewrite (Forall2_length _ _ _ Hall).
    + intros i res Hi.
      destruct (lookup_lt_is_Some_2 qts i) as [q Hq].
      { rewrite <- Hlen. by apply lookup_lt_Some in Hi. }
      destruct (Forall2_lookup_r _ _ _ _ _ Hall Hq) as (t & Ht & Hbuilt).
      exists t, q. split; [done|]. split; [done|]. split.
      * rewrite Hcalls, lookup_app_r by lia.
        replace (length (calls w) + i - length (calls w))%nat with i by lia.
        by rewrite list_lookup_fmap, Hq.
      * apply (f_equal (λ l, l !! i)) in Hresp.
        rewrite list_lookup_fmap, Hi, list_lookup_imap, Hq in Hresp. simpl in Hresp.
        by injection Hresp as <-.
    + intros l s Hl Hs. rewrite Hheap in Hs.
      destruct (tag_all_lookup_some _ _ _ _ _ Hlen Hl Hs)
        as (i & q & res & Hq & Hres & Hin & Htag).
      destruct (Forall2_lookup_r _ _ _ _ _ Hall Hq) as (t & Ht & start & end_ & ->).
      by exists i, t, res.
    + intros Hnd tagged.
      assert (deref (heap w') (concat (map streams_of rs)) = tagged) as Htag.
      { rewrite Hheap. unfold tagged.
        rewrite <- (zip_with_regexp _ qts) by (by eapply built_from_regexp).
        by apply deref_tag_all. }
      split; [done|].
      intros t0' Ht0' Hlogs. rewrite Ht0 in Ht0'. injection Ht0' as <-.
      unfold shape_of. by rewrite Hlogs, Htag.
Qed.

(** When two responses return the same stream object, the tag written
    for the second target replaces the one written for the first: the
    positional statement asks for distinct objects for this reason. *)
Example shared_stream_keeps_last_tag :
  (query (H:=shared_backend) sample_datasource two_logs_options sample_world).1
  = Ok {| qr_data := [ItemStream (tagStream (Some (VStr "err")) stream_a);
                      ItemStream (tagStream (Some (VStr "err")) stream_a)] |}.
Proof. vm_compute. reflexivity. Qed.

(** ** The streaming executor *)

Lemma array_map_stream `{Services} (this : LokiDatasource)
    (options : DataQueryOptions) (qts : list Obj) (w : World) :
  array_map
    (fun target =>
       responses <- _stream this "/api/prom/query" (Some target) options ;;
       h <- get_heap ;;
       ret (map (tagCopies h target) responses)) qts w =
  (Ok (imap (λ i q, map (tagCopies (heap w) q)
                      (datasourceStream (length (calls w) + i)
                         (stream_request_of this options q))) qts),
   {| clockReads := clockReads w;
      calls := calls w ++ map (stream_request_of this options) qts;
      heap := heap w |}).
Proof.
  revert w. induction qts as [|q qts IH]; intros w; simpl.
  - unfold ret. rewrite app_nil_r. by destruct w.
  - unfold bind at 1. unfold bind at 1. unfold _stream at 1.
    unfold bind at 1, get_heap at 1, ret at 1. simpl.
    unfold bind at 1. rewrite IH. unfold ret; simpl.
    rewrite length_app; simpl. rewrite <- app_assoc; simpl.
    f_equal. f_equal. f_equal.
    + rewrite Nat.add_0_r. reflexivity.
    + apply imap_ext. intros i x _. simpl. do 2 f_equal. lia.
Qed.

Lemma array_map_shape `{Services} (this : LokiDatasource)
    (options : DataQueryOptions) (t0 : LokiQuery) (xs : list (list LogsStream))
    (w : World) :
  targets options !! 0%nat = Some t0 →
  array_map (shapeResult this options) xs w =
  (Ok (map (shape_of this options t0) xs), w).
Proof.
  intros Ht0. induction xs as [|x xs IH]; [done|].
  simpl. unfold bind at 1. rewrite (shapeResult_run _ _ t0) by done.
  unfold bind at 1. by rewrite IH.
Qed.

Lemma array_map_shape_world `{Services} (this : LokiDatasource)
    (options : DataQueryOptions) (xs : list (list LogsStream)) (w : World) :
  (array_map (shapeResult this options) xs w).2 = w.
Proof.
  destruct (targets options !! 0%nat) as [t0|] eqn:Ht0.
  - by rewrite (array_map_shape _ _ t0).
  - destruct xs as [|x xs]; [done|].
    simpl. unfold bind at 1, shapeResult at 1, bind at 1, first_target at 1.
    by rewrite Ht0.
Qed.


Lemma joined_cases {A} (streams : list (list A)) :
  joined streams = [] ∨
  mapM last streams = Some (joined streams) ∧ length (joined streams) = length streams.
Proof.
  unfold joined, mergeMap, combineLatest, forkJoin.
  destruct streams as [|s streams]; [by left|].
  destruct (mapM last (s :: streams)) as [lasts|] eqn:Hlasts; [|by left].
  right. simpl. rewrite app_nil_r. split; [done|].
  symmetry. exact (length_mapM _ _ _ Hlasts).
Qed.

Lemma map_const_replicate {A B} (b : B) (l : list A) :
  map (λ _, b) l = replicate (length l) b.
Proof. induction l; simpl; by f_equal. Qed.



(** The last value of a tagged backend stream carries the target's regexp
    on every stream. *)
Lemma tagCopies_search (h : gmap loc LogsStream) (q : Obj) (res : option Response) :
  Forall (λ s, search s = obj_get "regexp" q) (tagCopies h q res).
Proof.
  unfold tagCopies. destruct res as [[[[[ls|] vs]|]]|]; try by constructor.
  apply Forall_fmap, Forall_forall. done.
Qed.

(** What a completed [requestStream] did and emitted. *)
Lemma requestStream_inv `{Services} (this : LokiDatasource)
    (options : DataQueryOptions) (w w' : World) (ems : list Emission) :
  requestStream this options w = (Ok ems, w') →
  ∃ qts xs,
    Forall2 (built_from this) (List.filter active (targets options)) qts ∧
    calls w' = calls w ++ map (stream_request_of this options) qts ∧
    (xs = [] ∨
     Forall2 (λ q x, Forall (λ s, search s = obj_get "regexp" q) x) qts xs) ∧
    ems = replicate (length (List.filter suppressed (targets options))) EmEMPTY
          ++ map EmResult
               (match targets options !! 0%nat with
                | Some t0 => map (shape_of this options t0) xs
                | None => []
                end).
Proof.
  intros Hrun. unfold requestStream in Hrun.
  apply bind_ok in Hrun as (qts & w1 & Hprep & Hrun).
  destruct (array_map_prepare_inv _ _ _ _ _ _ Hprep) as (Hall & Hc1 & Hh1).
  apply bind_ok in Hrun as (streams & w2 & Hstr & Hrun).
  rewrite array_map_stream in Hstr. injection Hstr as <- <-.
  fold (joined (imap (λ i q, map (tagCopies (heap w1) q)
                   (datasourceStream (length (calls w1) + i)
                      (stream_request_of this options q))) qts)) in Hrun.
  set (streams := imap _ qts) in Hrun.
  apply bind_ok in Hrun as (result & w3 & Hshape & Hrun).
  injection Hrun as <- <-.
  exists qts, (joined streams). split; [done|].
  assert (result = match targets options !! 0%nat with
                   | Some t0 => map (shape_of this options t0) (joined streams)
                   | None => []
                   end ∧ calls w3 = calls w ++ map (stream_request_of this options) qts)
    as [-> ->].
  { destruct (targets options !! 0%nat) as [t0|] eqn:Ht0.
    - rewrite (array_map_shape _ _ t0) in Hshape by done.
      injection Hshape as <- <-. simpl. by rewrite Hc1.
    - apply lookup_ge_None in Ht0.
      destruct (targets options); [|simpl in Ht0; lia].
      simpl in Hall. apply Forall2_nil_inv_l in Hall as ->.
      injection Hshape as <- <-. simpl. by rewrite Hc1. }
  repeat split; [|by rewrite map_const_replicate].
  destruct (joined_cases streams) as [->|[Hlasts _]]; [by left|right].
  apply mapM_Some in Hlasts. unfold streams in Hlasts.
  apply Forall2_same_length_lookup. split.
  - apply Forall2_length in Hlasts. by rewrite length_imap in Hlasts.
  - intros i q x Hq Hx.
    destruct (Forall2_lookup_r _ _ _ _ _ Hlasts Hx) as (s & Hs & Hlast).
    rewrite list_lookup_imap, Hq in Hs. simpl in Hs. injection Hs as <-.
    rewrite fmap_last in Hlast.
    destruct (last _) as [res|]; [|done].
    injection Hlast as <-. apply tagCopies_search.
Qed.



Lemma requestStream_run `{Services} (this : LokiDatasource)
    (options : DataQueryOptions) (t0 : LokiQuery) (qts : list Obj) (w w1 : World) :
  targets options !! 0%nat = Some t0 →
  array_map (fun target => prepareQueryTarget this target options)
    (List.filter active (targets options)) w = (Ok qts, w1) →
  requestStream this options w =
  (Ok (replicate (length (List.filter suppressed (targets options))) EmEMPTY
       ++ map EmResult
            (map (shape_of this options t0)
               (joined (tagged_streams this options (heap w1) (length (calls w1)) qts)))),
   {| clockReads := clockReads w1;
      calls := calls w1 ++ map (stream_request_of this options) qts;
      heap := heap w1 |}).
Proof.
  intros Ht0 Hprep. unfold requestStream. unfold bind at 1. rewrite Hprep.
  unfold bind at 1. rewrite array_map_stream. unfold bind at 1.
  fold (tagged_streams this options (heap w1) (length (calls w1)) qts).
  fold (joined (tagged_streams this options (heap w1) (length (calls w1)) qts)).
  rewrite (array_map_shape _ _ t0) by done.
  unfold ret, merge. by rewrite map_const_replicate.
Qed.

Lemma requestStream_inv_exact `{Services} (this : LokiDatasource)
    (options : DataQueryOptions) (t0 : LokiQuery) (w w' : World)
    (ems : list Emission) :
  targets options !! 0%nat = Some t0 →
  requestStream this options w = (Ok ems, w') →
  ∃ qts,
    Forall2 (built_from this) (List.filter active (targets options)) qts ∧
    calls w' = calls w ++ map (stream_request_of this options) qts ∧
    ems = replicate (length (List.filter suppressed (targets options))) EmEMPTY
          ++ map EmResult
               (map (shape_of this options t0)
                  (joined (tagged_streams this options (heap w) (length (calls w)) qts))).
Proof.
  intros Ht0 Hrun. pose proof Hrun as Hrun'. unfold requestStream in Hrun'.
  apply bind_ok in Hrun' as (qts & w1 & Hprep & _).
  destruct (array_map_prepare_inv _ _ _ _ _ _ Hprep) as (Hall & Hc1 & Hh1).
  rewrite (requestStream_run _ _ t0 qts w w1) in Hrun by done.
  injection Hrun as <- <-. exists qts. simpl. by rewrite Hc1, Hh1.
Qed.

Lemma tagCopies_spec (h : gmap loc LogsStream) (q : Obj) (res : option Response) :
  tagCopies h q res = map (tagStream (obj_get "regexp" q)) (deref h (stream_refs res)).
Proof.
  unfold tagCopies, stream_refs.
  destruct res as [r|]; [|done].
  destruct (res_data r) as [d|]; [|done].
  by destruct (rd_streams d).
Qed.

(** The tags [requestStream] sets: the results of a completed run are
    built from one stream list per surviving target, in order, and the
    list at position [i] holds the streams of the last response to the
    request made for the i-th surviving target, each a copy with [search]
    set to the regexp filter of that very target. *)
Lemma requestStream_search_tag `{Services} (this : LokiDatasource)
    (options : DataQueryOptions) (w w' : World) (ems : list Emission) :
  requestStream this options w = (Ok ems, w') →
  let survivors := List.filter active (targets options) in
  ∃ xs : list (list LogsStream),
    ems = replicate (length (List.filter suppressed (targets options))) EmEMPTY
          ++ map EmResult
               (match targets options !! 0%nat with
                | Some t0 => map (shape_of this options t0) xs
                | None => []
                end) ∧
    (xs = [] ∨ length xs = length survivors) ∧
    ∀ i t x, survivors !! i = Some t → xs !! i = Some x →
      ∃ q res,
        built_from this t q ∧
        calls w' !! (length (calls w) + i)%nat
        = Some (stream_request_of this options q) ∧
        last (datasourceStream (length (calls w) + i)
                (stream_request_of this options q)) = Some res ∧
        x = map (tagStream (Some (target_regexp t)))
              (deref (heap w) (stream_refs res)).
Proof.
  intros Hrun survivors.
  destruct (targets options !! 0%nat) as [t0|] eqn:Ht0.
  - destruct (requestStream_inv_exact _ _ t0 _ _ _ Ht0 Hrun) as (qts & Hall & Hc & ->).
    fold survivors in Hall.
    set (streams := tagged_streams this options (heap w) (length (calls w)) qts).
    exists (joined streams). split; [done|].
    destruct (joined_cases streams) as [Hnil|[Hlasts Hlen]].
    + rewrite Hnil. split; [by left|]. intros i t x _ Hx. by rewrite lookup_nil in Hx.
    + split.
      { right. rewrite Hlen. unfold streams, tagged_streams.
        by rewrite length_imap, (Forall2_length _ _ _ Hall). }
      intros i t x Ht Hx. apply mapM_Some in Hlasts.
      destruct (Forall2_lookup_r _ _ _ _ _ Hlasts Hx) as (s & Hs & Hlast).
      unfold streams, tagged_streams in Hs. rewrite list_lookup_imap in Hs.
      destruct (Forall2_lookup_l _ _ _ _ _ Hall Ht) as (q & Hq & Hbuilt).
      rewrite Hq in Hs. simpl in Hs. injection Hs as <-.
      rewrite fmap_last in Hlast.
      destruct (last (datasourceStream (length (calls w) + i)
                        (stream_request_of this options q))) as [res|] eqn:Hres;
        [|done].
      injection Hlast as <-. exists q, res.
      split; [done|]. split; [|split; [done|]].
      * rewrite Hc, lookup_app_r by lia.
        replace (length (calls w) + i - length (calls w))%nat with i by lia.
        by rewrite list_lookup_fmap, Hq.
      * rewrite tagCopies_spec. by destruct Hbuilt as (start & end_ & ->).
  - destruct (requestStream_inv _ _ _ _ _ Hrun) as (qts & xs & _ & _ & _ & ->).
    rewrite Ht0. exists []. split; [done|]. split; [by left|].
    intros i t x _ Hx. by rewrite lookup_nil in Hx.
Qed.

(** ** The tag of the originating target *)

(** C4. In every execution batch, one-shot or streaming, each stream of
    the merged output has as [search] the regexp filter of the target
    whose request produced it, responses being paired with the surviving
    targets by position.  For [query]: the i-th response answers the
    request made for the i-th surviving target, every output stream
    carries the regexp of a target whose response returned it, and when no
    stream object occurs twice among the responses (each response is
    decoded on its own) the output is, response by response, the returned
    streams tagged with the regexp of the target at that position.  For
    [requestStream]: the i-th stream list of a completed run holds the
    streams of the last response to the i-th surviving target's request,
    each tagged with the regexp of that target. *)
Theorem C4_search_tag_of_origin `{Services} (this : LokiDatasource)
    (options : DataQueryOptions) :
  let survivors := List.filter active (targets options) in
  (∀ (w w' : World) (r : QueryResult),
     query this options w = (Ok r, w') →
     ∃ results : list Response,
       length results = length survivors ∧
       (∀ i res, results !! i = Some res →
          ∃ t q, survivors !! i = Some t ∧ built_from this t q ∧
                 calls w' !! (length (calls w) + i)%nat = Some (request_of this q) ∧
                 datasourceRequest (length (calls w) + i) (request_of this q)
                 = Ok (Some res)) ∧
       (∀ l s, l ∈ concat (map streams_of results) → heap w' !! l = Some s →
          ∃ i t res, survivors !! i = Some t ∧ results !! i = Some res ∧
                     l ∈ streams_of res ∧ search s = Some (target_regexp t)) ∧
       (NoDup (concat (map streams_of results)) →
        let tagged :=
          concat (zip_with
                    (λ t res, map (tagStream (Some (target_regexp t)))
                                (deref (heap w) (streams_of res)))
                    survivors results) in
        deref (heap w') (concat (map streams_of results)) = tagged ∧
        ∀ t0, targets options !! 0%nat = Some t0 →
              is_time_series t0 = false →
              qr_data r = map ItemStream tagged)) ∧
  (∀ (w w' : World) (ems : list Emission),
     requestStream this options w = (Ok ems, w') →
     ∃ xs : list (list LogsStream),
       ems = replicate (length (List.filter suppressed (targets options))) EmEMPTY
             ++ map EmResult
                  (match targets options !! 0%nat with
                   | Some t0 => map (shape_of this options t0) xs
                   | None => []
                   end) ∧
       (xs = [] ∨ length xs = length survivors) ∧
       ∀ i t x, survivors !! i = Some t → xs !! i = Some x →
         ∃ q res,
           built_from this t q ∧
           calls w' !! (length (calls w) + i)%nat
           = Some (stream_request_of this options q) ∧
           last (datasourceStream (length (calls w) + i)
                   (stream_request_of this options q)) = Some res ∧
           x = map (tagStream (Some (target_regexp t)))
                 (deref (heap w) (stream_refs res))).
Proof.
  intros survivors. split.
  - intros w w' r Hrun. by apply query_search_tag.
  - intros w w' ems Hrun. by apply requestStream_search_tag.
Qed.

Lemma C4_search_tag_of_origin_witness :
  let survivors := targets two_logs_options in
  let outq := query (H:=sample_backend) sample_datasource two_logs_options
                sample_world in
  let outs := requestStream (H:=sample_backend) sample_datasource two_logs_options
                sample_world in
  (∃ results : list Response,
     length results = 2%nat ∧
     (∀ i res, results !! i = Some res →
        ∃ t q, survivors !! i = Some t ∧
               built_from (H:=sample_backend) sample_datasource t q ∧
               calls outq.2 !! (0 + i)%nat
               = Some (request_of (H:=sample_backend) sample_datasource q) ∧
               datasourceRequest (Services:=sample_backend) (0 + i)
                 (request_of (H:=sample_backend) sample_datasource q)
               = Ok (Some res)) ∧
     (∀ l s, l ∈ concat (map streams_of results) → heap outq.2 !! l = Some s →
        ∃ i t res, survivors !! i = Some t ∧ results !! i = Some res ∧
                   l ∈ streams_of res ∧
                   search s = Some (target_regexp (H:=sample_backend) t)) ∧
     (NoDup (concat (map streams_of results)) →
      let tagged :=
        concat (zip_with
                  (λ t res, map (tagStream (Some (target_regexp (H:=sample_backend) t)))
                              (deref (heap sample_world) (streams_of res)))
                  survivors results) in
      deref (heap outq.2) (concat (map streams_of results)) = tagged ∧
      ∀ t0, targets two_logs_options !! 0%nat = Some t0 →
            is_time_series t0 = false →
            [ItemStream (tagStream (Some (VStr "x")) stream_a);
             ItemStream (tagStream (Some (VStr "err")) stream_b)]
            = map ItemStream tagged)) ∧
  (∃ xs : list (list LogsStream),
     [EmResult {| qr_data := [ItemStream (tagStream (Some (VStr "x")) stream_a)] |};
      EmResult {| qr_data := [ItemStream (tagStream (Some (VStr "err")) stream_b)] |}]
     = replicate 0 EmEMPTY
       ++ map EmResult
            (map (shape_of (H:=sample_backend) sample_datasource two_logs_options
                    (logs_target "{job=a} x" false)) xs) ∧
     (xs = [] ∨ length xs = 2%nat) ∧
     ∀ i t x, survivors !! i = Some t → xs !! i = Some x →
       ∃ q res,
         built_from (H:=sample_backend) sample_datasource t q ∧
         calls outs.2 !! (0 + i)%nat
         = Some (stream_request_of (H:=sample_backend) sample_datasource
                   two_logs_options q) ∧
         last (datasourceStream (Services:=sample_backend) (0 + i)
                 (stream_request_of (H:=sample_backend) sample_datasource
                    two_logs_options q)) = Some res ∧
         x = map (tagStream (Some (target_regexp (H:=sample_backend) t)))
               (deref (heap sample_world) (stream_refs res))).
Proof.
  intros survivors outq outs. split.
  - exact (proj1 (C4_search_tag_of_origin (H:=sample_backend) sample_datasource
                    two_logs_options) sample_world outq.2
             {| qr_data := [ItemStream (tagStream (Some (VStr "x")) stream_a);
                            ItemStream (tagStream (Some (VStr "err")) stream_b)] |}
             ltac:(vm_compute; reflexivity)).
  - exact (proj2 (C4_search_tag_of_origin (H:=sample_backend) sample_datasource
                    two_logs_options) sample_world outs.2
             [EmResult {| qr_data := [ItemStream (tagStream (Some (VStr "x")) stream_a)] |};
              EmResult {| qr_data := [ItemStream (tagStream (Some (VStr "err")) stream_b)] |}]
             ltac:(vm_compute; reflexivity)).
Defined.

(** ** The shape of the result *)

(** C2 as stated fails: with a hidden time-series target ahead of a visible
    logs target, the first target that survives asks for the raw stream
    list, and the batch returns series. *)
Lemma C2_counterexample :
  ∃ t1 r w',
    first_surviving mixed_options = Some t1 ∧
    query (H:=sample_backend) sample_datasource mixed_options sample_world = (Ok r, w') ∧
    ¬ shaped_by (H:=sample_backend) sample_datasource mixed_options t1 r.
Proof.
  exists (logs_target "{job=b} err" false),
    {| qr_data := [ItemSeries {| series_labels := "count"; datapoints := [(1, 1000)] |}] |},
    (query (H:=sample_backend) sample_datasource mixed_options sample_world).2.
  split; [reflexivity|]. split; [vm_compute; reflexivity|].
  intros [allStreams Heq]. unfold shape_of in Heq. simpl in Heq.
  destruct allStreams; discriminate.
Qed.

(** C2 (amended). For every batch with a surviving target, the shape of
    the result is chosen by the format of the first target of the batch,
    [targets[0]], suppressed or not: the series derived from the tagged
    streams when it is "time_series", the raw tagged stream list
    otherwise.  The same holds for every result [requestStream] emits. *)
Theorem C2_shape_by_first_target `{Services} (this : LokiDatasource)
    (options : DataQueryOptions) :
  (∀ w w' r,
     query this options w = (Ok r, w') →
     List.filter active (targets options) ≠ [] →
     ∃ t0 results,
       targets options !! 0%nat = Some t0 ∧
       let allStreams := deref (heap w') (concat (map streams_of results)) in
       qr_data r =
       if is_time_series t0
       then map ItemSeries
              (makeSeriesForLogs (rows (mergeStreamsToLogs allStreams (maxLines this)))
                 (intervalMs options))
       else map ItemStream allStreams) ∧
  (∀ w w' ems r,
     requestStream this options w = (Ok ems, w') →
     EmResult r ∈ ems →
     ∃ t0 allStreams,
       targets options !! 0%nat = Some t0 ∧
       qr_data r =
       if is_time_series t0
       then map ItemSeries
              (makeSeriesForLogs (rows (mergeStreamsToLogs allStreams (maxLines this)))
                 (intervalMs options))
       else map ItemStream allStreams).
Proof.
  split.
  - intros w w' r Hrun Hne.
    destruct (query_inv _ _ _ _ _ Hrun Hne)
      as (t0 & qts & rs & Ht0 & _ & _ & _ & _ & ->).
    exists t0, rs. split; [done|]. unfold shape_of.
    by destruct (is_time_series t0).
  - intros w w' ems r Hrun Hin.
    destruct (requestStream_inv _ _ _ _ _ Hrun) as (qts & xs & _ & _ & _ & ->).
    apply elem_of_app in Hin as [Hin|Hin].
    { apply elem_of_replicate in Hin as [? _]. done. }
    apply list_elem_of_fmap in Hin as (r' & [= ->] & Hin).
    destruct (targets options !! 0%nat) as [t0|]; [|by apply elem_of_nil in Hin].
    apply list_elem_of_fmap in Hin as (x & -> & _).
    exists t0, x. split; [done|]. unfold shape_of.
    by destruct (is_time_series t0).
Qed.

Lemma C2_shape_by_first_target_witness :
  ∃ t0 results,
    targets mixed_options !! 0%nat = Some t0 ∧
    [ItemSeries {| series_labels := "count"; datapoints := [(1, 1000)] |}] =
    if is_time_series t0
    then map ItemSeries
           (sample_series
              (rows (sample_merge
                       (deref (heap (query (H:=sample_backend) sample_datasource
                                       mixed_options sample_world).2)
                          (concat (map streams_of results)))
                       (maxLines sample_datasource)))
              (intervalMs mixed_options))
    else map ItemStream
           (deref (heap (query (H:=sample_backend) sample_datasource
                           mixed_options sample_world).2)
              (concat (map streams_of results))).
Proof.
  refine (proj1 (C2_shape_by_first_target (H:=sample_backend) sample_datasource
                   mixed_options) sample_world _
            {| qr_data := [ItemSeries {| series_labels := "count";
                                         datapoints := [(1, 1000)] |}] |} _ _).
  - vm_compute. reflexivity.
  - discriminate.
Defined.

(** ** Suppressed targets in streaming execution *)




(** * Further properties of the data source *)

(** ** The connectivity check, for every backend answer *)

(** X1. [testDatasource] issues the single request [/api/prom/label?] and
    resolves in every case but one: when the request is rejected with
    [undefined] or [null], the [catch] handler throws on [err.statusText]
    and [testDatasource] itself rejects with a [TypeError].  When it
    resolves, the status is "success" exactly when the request was
    fulfilled with at least one label, and "error" otherwise. *)
Theorem testDatasource_outcome `{Services} (this : LokiDatasource) (w : World) :
  let req := {| req_url := is_url (instanceSettings this) +:+ "/api/prom/label?";
                req_options := None; req_liveStream := None |} in
  let w1 := {| clockReads := clockReads w; calls := calls w ++ [req];
               heap := heap w |} in
  match datasourceRequest (length (calls w)) req with
  | Fail RejectedNullish => testDatasource this w = (Fail TypeError, w1)
  | answer =>
      ∃ r, testDatasource this w = (Ok r, w1) ∧
           (status r = "success" ∨ status r = "error") ∧
           (status r = "success" ↔
            ∃ res v vs, answer = Ok res ∧ label_values res = Some (v :: vs))
  end.
Proof.
  intros req w1. unfold testDatasource, bind, _request. simpl.
  change (request_url this "/api/prom/label" None)
    with (is_url (instanceSettings this) +:+ "/api/prom/label?").
  fold req. fold w1.
  destruct (datasourceRequest (length (calls w)) req) as [res|[|e|]]; [| | |done].
  - eexists. split; [reflexivity|]. simpl. unfold testDatasource_then.
    destruct (label_values res) as [[|v vs]|] eqn:Hv; simpl.
    + split; [by right|]. split; [done|]. intros (res' & v & vs & [= <-] & Hl). congruence.
    + split; [by left|]. split; [|done]. intros _. by exists res, v, vs.
    + split; [by right|]. split; [done|]. intros (res' & v & vs & [= <-] & Hl). congruence.
  - eexists. split; [reflexivity|].
    split; [by right|]. split; [done|]. by intros (res' & v & vs & [=] & _).
  - eexists. split; [reflexivity|].
    split; [by right|]. split; [done|]. by intros (res' & v & vs & [=] & _).
Qed.

(** A request rejected with [undefined] makes the check itself reject. *)
Example testDatasource_nullish_rejection :
  (testDatasource (H:=nullish_backend) sample_datasource sample_world).1
  = Fail TypeError.
Proof. reflexivity. Qed.

(** X2. When the label request is rejected, the result is an error whose
    message starts with "Loki: "; without a status text in the rejection
    it starts with "Loki: Cannot connect to Loki", and a rejection with a
    status text, a nonzero status and a message in its data is reported as
    "Loki: <statusText>. <status>. <message>". *)
Theorem testDatasource_rejection_message `{Services} (this : LokiDatasource)
    (w : World) (e : HttpError) :
  datasourceRequest (length (calls w))
    {| req_url := request_url this "/api/prom/label" None;
       req_options := None; req_liveStream := None |} = Fail (Rejected e) →
  ∃ r, (testDatasource this w).1 = Ok r ∧
       status r = "error" ∧
       String.prefix "Loki: " (message r) = true ∧
       (statusText e = None ∨ statusText e = Some "" →
        String.prefix "Loki: Cannot connect to Loki" (message r) = true) ∧
       (∀ c st n d dm,
          statusText e = Some (String c st) → err_status e = Some n → n ≠ 0 →
          err_data e = Some (ErrObject (Some (String d dm))) →
          message r = (("Loki: " +:+ String c st) +:+ ". " +:+ pretty n)
                      +:+ ". " +:+ String d dm).
Proof.
  intros Hrej. unfold testDatasource, bind, _request. simpl. rewrite Hrej.
  eexists. split; [reflexivity|]. split; [reflexivity|]. simpl.
  destruct e as [[[|c1 s1]|] [n|] [[[[|c2 s2]|]|[|c3 s3]]|]];
    unfold testDatasource_catch; simpl;
    try destruct (Z.eqb_spec n 0); simpl;
    (split; [reflexivity|]); (split; [intros [|]; (reflexivity || discriminate)|]);
    intros c st n' d dm; try discriminate;
    intros [= -> ->]; try (intros [= ->]); try done;
    intros ?; try (intros [= -> ->]); try discriminate; done.
Qed.

Lemma testDatasource_rejection_message_witness :
  ∃ r, (testDatasource (H:=rejecting_backend) sample_datasource sample_world).1 = Ok r ∧
       status r = "error" ∧ String.prefix "Loki: " (message r) = true.
Proof.
  destruct (testDatasource_rejection_message (H:=rejecting_backend) sample_datasource
              sample_world bad_gateway eq_refl) as (r & Hr & Hs & Hp & _).
  by exists r.
Defined.

(** ** Label metadata *)

(** X3. For a path under [/api/v1], [metadataRequest] issues one request
    to the same path under [/api/prom] with the parameter [silent=true]:
    only the first "v1" is rewritten, so the rest of the path is kept as it
    is even when it contains "v1".  A response with a body resolves to its
    values, or to the empty list when it has none; a response without a
    body is a [TypeError], and a rejection is passed on. *)
Theorem metadataRequest_rewrites_first_v1 `{Services} (this : LokiDatasource)
    (rest : string) (w : World) :
  let req := {| req_url := is_url (instanceSettings this) +:+ "/api/prom" +:+ rest
                           +:+ "?" +:+ encodeURIComponent "silent" +:+ "="
                           +:+ encodeURIComponent "true";
                req_options := None; req_liveStream := None |} in
  let out := metadataRequest this ("/api/v1" +:+ rest) w in
  calls out.2 = calls w ++ [req] ∧
  ∃ p, out.1 = Ok p ∧
       match datasourceRequest (length (calls w)) req with
       | Ok (Some res) =>
           match res_data res with
           | Some d =>
               ∃ values, p = Ok {| md_data := values |} ∧
                         (rd_values d = Some values ∨
                          rd_values d = None ∧ values = [])
           | None => p = Fail TypeError
           end
       | Ok None => p = Fail TypeError
       | Fail e => p = Fail e
       end.
Proof.
  intros req out. unfold out, metadataRequest, bind, _request, ret. simpl.
  split; [reflexivity|]. eexists. split; [reflexivity|].
  change (request_url this _ _) with (req_url req).
  change {| req_url := req_url req; req_options := None; req_liveStream := None |}
    with req.
  destruct (datasourceRequest (length (calls w)) req) as [[res|]|e]; try done.
  destruct (res_data res) as [d|]; [|done].
  eexists. split; [reflexivity|].
  destruct (rd_values d); [by left | by right].
Qed.

(** A label name that contains "v1" reaches the backend unchanged. *)
Example metadataRequest_keeps_later_v1 :
  req_url <$> last (calls (metadataRequest (H:=labels_backend) sample_datasource
                             "/api/v1/label/v1_build/values" sample_world).2)
  = Some "http://loki/api/prom/label/v1_build/values?silent=true".
Proof. reflexivity. Qed.

(** ** Editing a query *)

Lemma expr_or_empty (e : string) : (if truthy_str e then e else "") = e.
Proof. by destruct e. Qed.

(** X4. An action other than ADD_FILTER leaves a query as it is whenever
    the formatter gives back the expression from its parsed parts. *)
Theorem modifyQuery_other_action `{Services} `{QueryUtils} (query : LokiQuery)
    (action : Action) :
  act_type action ≠ "ADD_FILTER" →
  formatQuery (ps_query (parseQuery (expr query)))
    (ps_regexp (parseQuery (expr query))) = expr query →
  modifyQuery query action = query.
Proof.
  intros Hty Hround. unfold modifyQuery. rewrite expr_or_empty.
  destruct (String.eqb_spec (act_type action) "ADD_FILTER") as [|_]; [done|].
  rewrite Hround. by destruct query.
Qed.

Lemma modifyQuery_other_action_witness :
  modifyQuery (H:=sample_backend) (H0:=sample_utils) (logs_target "{job=a} err" false)
    {| act_type := "REMOVE_FILTER"; act_key := "job"; act_value := "a" |}
  = logs_target "{job=a} err" false.
Proof.
  apply (modifyQuery_other_action (H:=sample_backend) (H0:=sample_utils));
    [discriminate | reflexivity].
Defined.

(** X6. For a target without template variables, the regexp the builder
    sends to the backend, which [query] then writes on the returned
    streams, is the highlighter expression of the target. *)
Theorem built_regexp_is_highlighter `{Services} (this : LokiDatasource)
    (target : LokiQuery) (options : DataQueryOptions) (w w' : World) (obj : Obj) :
  templateSrv_replace (expr target) = expr target →
  prepareQueryTarget this target options w = (Ok obj, w') →
  obj_get "regexp" obj = Some (VStr (getHighlighterExpression target)) ∧
  target_regexp target = VStr (getHighlighterExpression target).
Proof.
  intros Hplain. rewrite prepareQueryTarget_unfold.
  destruct (targets options !! 0%nat); [|done].
  destruct (window _ _ _) as [[??]|]; [|done].
  intros [= <- _]. unfold target_regexp, getHighlighterExpression.
  by rewrite Hplain.
Qed.

Lemma built_regexp_is_highlighter_witness :
  target_regexp (H:=sample_backend) (logs_target "{job=a} err" false) = VStr "err".
Proof.
  exact (proj2 (built_regexp_is_highlighter (H:=sample_backend) sample_datasource
                  (logs_target "{job=a} err" false)
                  (sample_options [logs_target "{job=a} err" false])
                  sample_world _ _ eq_refl eq_refl)).
Defined.

(** ** Failures of the one-shot executor *)

Lemma bind_fail {A B} (m : M A) (f : A → M B) (w w' : World) (e : Err) :
  bind m f w = (Fail e, w') →
  m w = (Fail e, w') ∨ ∃ a w1, m w = (Ok a, w1) ∧ f a w1 = (Fail e, w').
Proof.
  unfold bind. destruct (m w) as [[a|e'] w1]; [by eauto|].
  intros [= -> ->]. by left.
Qed.

Lemma getTime_fail `{Services} (date : DateInput) (roundUp : bool) (e : Err) :
  getTime date roundUp = Fail e → e = TypeError.
Proof.
  destruct date as [s|m]; simpl; [|done].
  destruct (dateMath_parse s roundUp); [done|]. by intros [= <-].
Qed.

Lemma window_fail `{Services} (t0 : LokiQuery) (options : DataQueryOptions)
    (now : Z) (e : Err) :
  window t0 options now = Fail e → e = TypeError.
Proof.
  unfold window. destruct (is_time_series t0); [|done].
  destruct (getTime (rg_from (range options)) false) eqn:Hf.
  - destruct (getTime (rg_to (range options)) true) eqn:Ht; [done|].
    intros [= <-]. by eapply getTime_fail.
  - intros [= <-]. by eapply getTime_fail.
Qed.

Lemma array_map_prepare_fail `{Services} (this : LokiDatasource)
    (options : DataQueryOptions) (ts : list LokiQuery) (w w1 : World) (e : Err) :
  array_map (fun target => prepareQueryTarget this target options) ts w = (Fail e, w1) →
  e = TypeError.
Proof.
  revert w. induction ts as [|t ts IH]; intros w; simpl; [done|].
  intros Hrun. apply bind_fail in Hrun as [Hq|(q & wa & _ & Hrun)].
  - rewrite prepareQueryTarget_unfold in Hq.
    destruct (targets options !! 0%nat); [|by injection Hq as <-].
    destruct (window _ _ _) as [[??]|e'] eqn:Hw; [done|].
    injection Hq as <- _. by eapply window_fail.
  - apply bind_fail in Hrun as [Hqs|(qs & wb & _ & Hrun)]; [by eapply IH | done].
Qed.

Lemma tagStreams_world (query : option Obj) (ls acc : list loc) (w : World) :
  calls (tagStreams query ls acc w).2 = calls w ∧
  clockReads (tagStreams query ls acc w).2 = clockReads w ∧
  ∀ e, (tagStreams query ls acc w).1 = Fail e → e = TypeError.
Proof.
  destruct query as [q|].
  - rewrite tagStreams_run. by repeat split.
  - destruct ls as [|l ls]; simpl; [by repeat split|].
    unfold bind, defined, throw. simpl.
    split; [done|]. split; [done|]. by intros e [= <-].
Qed.

Lemma collectStreams_cons (qts : list Obj) (i : nat) (r : Response)
    (results : list (option Response)) (acc : list loc) (w : World) :
  collectStreams qts i (Some r :: results) acc w =
  bind (match res_data r with
        | Some d => tagStreams (qts !! i) (default [] (rd_streams d)) acc
        | None => ret acc
        end)
    (fun acc' => collectStreams qts (S i) results acc') w.
Proof. reflexivity. Qed.

Lemma collectStreams_world (qts : list Obj) (i : nat)
    (results : list (option Response)) (acc : list loc) (w : World) :
  calls (collectStreams qts i results acc w).2 = calls w ∧
  clockReads (collectStreams qts i results acc w).2 = clockReads w ∧
  ∀ e, (collectStreams qts i results acc w).1 = Fail e → e = TypeError.
Proof.
  revert i acc w. induction results as [|[r|] results IH]; intros i acc w.
  - by repeat split.
  - rewrite collectStreams_cons. unfold bind.
    assert (∀ w0, calls (match res_data r with
                         | Some d => tagStreams (qts !! i) (default [] (rd_streams d)) acc
                         | None => ret acc
                         end w0).2 = calls w0 ∧
                  clockReads (match res_data r with
                              | Some d => tagStreams (qts !! i) (default [] (rd_streams d)) acc
                              | None => ret acc
                              end w0).2 = clockReads w0 ∧
                  ∀ e, (match res_data r with
                        | Some d => tagStreams (qts !! i) (default [] (rd_streams d)) acc
                        | None => ret acc
                        end w0).1 = Fail e → e = TypeError) as Hstep.
    { intros w0. destruct (res_data r); [apply tagStreams_world | by repeat split]. }
    destruct (Hstep w) as (Hc & Hk & He).
    destruct (match res_data r with
              | Some d => tagStreams (qts !! i) (default [] (rd_streams d)) acc
              | None => ret acc
              end w) as [[acc'|e] w1]; simpl in *.
    + destruct (IH (S i) acc' w1) as (Hc' & Hk' & He').
      rewrite Hc', Hk', Hc, Hk. by repeat split.
    + repeat split; [done..|]. intros e' [= <-]. by apply He.
  - simpl. unfold bind, defined, throw. simpl.
    split; [done|]. split; [done|]. by intros e [= <-].
Qed.

Lemma Promise_all_fail {A} (ps : list (Result A)) (e : Err) :
  Promise_all ps = Fail e → ∃ i, ps !! i = Some (Fail e).
Proof.
  induction ps as [|[a|e'] ps IH]; simpl; [done| |].
  - destruct (Promise_all ps); [done|]. intros [= ->].
    destruct IH as [i Hi]; [done|]. by exists (S i).
  - intros [= ->]. by exists 0%nat.
Qed.

(** X7. All-or-nothing: when [query] rejects with a backend error, that
    error is the rejection of one of the requests of the batch; by then
    every request of the batch had been issued, one per surviving target,
    and no returned stream has been tagged. *)
Theorem query_backend_rejection `{Services} (this : LokiDatasource)
    (options : DataQueryOptions) (w w' : World) (e : HttpError) :
  query this options w = (Fail (Rejected e), w') →
  (∃ i req, calls w' !! (length (calls w) + i)%nat = Some req ∧
            datasourceRequest (length (calls w) + i) req = Fail (Rejected e)) ∧
  length (calls w') =
    (length (calls w) + length (List.filter active (targets options)))%nat ∧
  heap w' = heap w.
Proof.
  intros Hrun. unfold query in Hrun.
  apply bind_fail in Hrun as [Hprep|(qts & w1 & Hprep & Hrun)].
  { by apply array_map_prepare_fail in Hprep. }
  destruct (array_map_prepare_inv _ _ _ _ _ _ Hprep) as (Hall & Hc1 & Hh1).
  destruct (length qts =? 0)%nat; [done|].
  apply bind_fail in Hrun as [Hreq|(queries & w2 & Hreq & Hrun)].
  { by rewrite array_map_request in Hreq. }
  rewrite array_map_request in Hreq. injection Hreq as <- <-.
  apply bind_fail in Hrun as [Hall'|(results & w3 & _ & Hrun)].
  - injection Hall' as Hall' <-. simpl.
    apply Promise_all_fail in Hall' as [i Hi].
    rewrite list_lookup_imap in Hi.
    destruct (qts !! i) as [q|] eqn:Hq; [|done]. injection Hi as Hi.
    split; [|split; [|done]].
    + exists i, (request_of this q). rewrite <- Hc1. split; [|done].
      rewrite lookup_app_r by lia.
      replace (length (calls w1) + i - length (calls w1))%nat with i by lia.
      by rewrite list_lookup_fmap, Hq.
    + rewrite length_app, length_map, Hc1, (Forall2_length _ _ _ Hall). done.
  - apply bind_fail in Hrun as [Hcol|(allStreams & w4 & _ & Hrun)].
    { pose proof (collectStreams_world qts 0 results [] w3) as (_ & _ & He).
      rewrite Hcol in He. by specialize (He _ eq_refl). }
    apply bind_fail in Hrun as [Hh|(h & w5 & _ & Hrun)]; [done|].
    unfold shapeResult in Hrun.
    apply bind_fail in Hrun as [Hft|(t0 & w6 & _ & Hrun)].
    + unfold first_target, defined in Hft. by destruct (targets options !! 0%nat).
    + by destruct (is_time_series t0).
Qed.

Lemma query_backend_rejection_witness :
  let out := query (H:=rejecting_backend) sample_datasource two_logs_options
               sample_world in
  (∃ i req, calls out.2 !! (0 + i)%nat = Some req ∧
            datasourceRequest (Services:=rejecting_backend) (0 + i) req
            = Fail (Rejected bad_gateway)) ∧
  length (calls out.2) = 2%nat ∧
  heap out.2 = heap sample_world.
Proof.
  intros out.
  exact (query_backend_rejection (H:=rejecting_backend) sample_datasource
           two_logs_options sample_world out.2 bad_gateway
           ltac:(vm_compute; reflexivity)).
Defined.

(** ** Live and historical batches *)

Lemma array_map_prepare_live `{Services} (this : LokiDatasource)
    (options : DataQueryOptions) (t0 : LokiQuery) (ts : list LokiQuery) (w : World) :
  targets options !! 0%nat = Some t0 →
  is_time_series t0 = false →
  array_map (fun target => prepareQueryTarget this target options) ts w =
  (Ok (imap (λ i t, live_target this (clockReads w + i) t) ts), advance (length ts) w).
Proof.
  intros Ht0 Hlive. revert w. induction ts as [|t ts IH]; intros w; simpl.
  - unfold ret, advance. rewrite Nat.add_0_r. by destruct w.
  - unfold bind at 1. rewrite prepareQueryTarget_unfold, Ht0.
    unfold window. rewrite Hlive. unfold bind at 1. rewrite IH.
    unfold ret, advance, tick, live_target. simpl.
    rewrite Nat.add_0_r. f_equal.
    + do 2 f_equal. apply imap_ext. intros i x _. simpl.
      by replace (clockReads w + S i)%nat with (S (clockReads w + i)) by lia.
    + f_equal. lia.
Qed.

Lemma window_unresolvable `{Services} (t0 : LokiQuery) (options : DataQueryOptions)
    (now : Z) :
  is_time_series t0 = true →
  (∃ s, rg_from (range options) = DateString s ∧ dateMath_parse s false = None) ∨
  (∃ s, rg_to (range options) = DateString s ∧ dateMath_parse s true = None) →
  window t0 options now = Fail TypeError.
Proof.
  intros Hts Hbad. unfold window. rewrite Hts.
  destruct (getTime (rg_from (range options)) false) as [start|e] eqn:Hf.
  - destruct Hbad as [(s & Hs & Hp)|(s & Hs & Hp)].
    + rewrite Hs in Hf. simpl in Hf. by rewrite Hp in Hf.
    + rewrite Hs. simpl. by rewrite Hp.
  - by rewrite (getTime_fail _ _ _ Hf).
Qed.

(** X8. In historical mode (the first target is in time-series format), a
    batch with a surviving target and a range one end of which the date
    math cannot resolve fails with a [TypeError] after one reading of the
    clock: [query] rejects and [requestStream] throws before any backend
    call is made. *)
Theorem unresolvable_range_no_request `{Services} (this : LokiDatasource)
    (options : DataQueryOptions) (t0 : LokiQuery) (w : World) :
  targets options !! 0%nat = Some t0 →
  is_time_series t0 = true →
  List.filter active (targets options) ≠ [] →
  (∃ s, rg_from (range options) = DateString s ∧ dateMath_parse s false = None) ∨
  (∃ s, rg_to (range options) = DateString s ∧ dateMath_parse s true = None) →
  query this options w = (Fail TypeError, tick w) ∧
  requestStream this options w = (Fail TypeError, tick w).
Proof.
  intros Ht0 Hts Hne Hbad.
  assert (array_map (fun target => prepareQueryTarget this target options)
            (List.filter active (targets options)) w = (Fail TypeError, tick w)) as Hprep.
  { destruct (List.filter active (targets options)) as [|t ts]; [done|].
    simpl. unfold bind at 1. rewrite prepareQueryTarget_unfold, Ht0.
    by rewrite window_unresolvable. }
  unfold query, requestStream. unfold bind at 1. rewrite Hprep.
  split; [done|]. unfold bind at 1. by rewrite Hprep.
Qed.

Lemma unresolvable_range_no_request_witness :
  query (H:=sample_backend) sample_datasource bad_range_options sample_world
  = (Fail TypeError, tick sample_world) ∧
  requestStream (H:=sample_backend) sample_datasource bad_range_options sample_world
  = (Fail TypeError, tick sample_world).
Proof.
  apply (unresolvable_range_no_request (H:=sample_backend) sample_datasource
           bad_range_options (series_target "{job=a}" false) sample_world);
    [reflexivity | reflexivity | discriminate |].
  right. by exists "tomorrow".
Defined.

(** X9. In live mode (the first target is not in time-series format)
    [query] issues, whatever its outcome, exactly one request per surviving
    target, in order, and reads the clock once per target: the i-th
    request carries the window [now_i - 1 second, now_i] of the i-th
    reading, not one window for the batch. *)
Theorem query_live_requests `{Services} (this : LokiDatasource)
    (options : DataQueryOptions) (t0 : LokiQuery) (w : World) :
  targets options !! 0%nat = Some t0 →
  is_time_series t0 = false →
  calls (query this options w).2 =
    calls w ++ imap (λ i t, request_of this (live_target this (clockReads w + i) t))
                 (List.filter active (targets options)) ∧
  clockReads (query this options w).2 =
    (clockReads w + length (List.filter active (targets options)))%nat.
Proof.
  intros Ht0 Hlive.
  set (reqs := imap (λ i t, request_of this (live_target this (clockReads w + i) t))
                 (List.filter active (targets options))).
  assert (∃ o w', query this options w = (o, w') ∧ calls w' = calls w ++ reqs ∧
                  clockReads w' =
                    (clockReads w + length (List.filter active (targets options)))%nat)
    as (o & w' & -> & Hc & Hk); [|done].
  unfold query. unfold bind at 1.
  rewrite (array_map_prepare_live _ _ t0) by done.
  rewrite length_imap. unfold reqs.
  destruct (List.filter active (targets options)) as [|t ts] eqn:Hsurv.
  { simpl. eexists _, _. split; [reflexivity|]. simpl.
    rewrite app_nil_r, Nat.add_0_r. done. }
  rewrite <- Hsurv. replace (length (List.filter active (targets options)) =? 0)%nat
    with false by (by rewrite Hsurv).
  unfold bind at 1. rewrite array_map_request. unfold bind at 1, lift at 1.
  rewrite fmap_imap. simpl.
  destruct (Promise_all _) as [results|e].
  2:{ eexists _, _. split; [reflexivity|]. done. }
  unfold bind at 1.
  match goal with
  | |- context [collectStreams ?qts 0 results [] ?w2] =>
      pose proof (collectStreams_world qts 0 results [] w2) as (Hc & Hk & _);
      destruct (collectStreams qts 0 results [] w2) as [[allStreams|e] w3]
  end; simpl in Hc, Hk.
  2:{ eexists _, _. split; [reflexivity|]. done. }
  unfold bind at 1, get_heap at 1.
  rewrite (shapeResult_run _ _ t0) by done.
  eexists _, _. split; [reflexivity|]. done.
Qed.

Lemma query_live_requests_witness :
  length (calls (query (H:=sample_backend) sample_datasource two_logs_options
                   sample_world).2) = 2%nat ∧
  clockReads (query (H:=sample_backend) sample_datasource two_logs_options
                sample_world).2 = 2%nat.
Proof.
  destruct (query_live_requests (H:=sample_backend) sample_datasource two_logs_options
              (logs_target "{job=a} x" false) sample_world eq_refl eq_refl)
    as [Hc Hk].
  split; [by rewrite Hc | exact Hk].
Defined.

(** X10. The URL of the request for a built target: the base URL, the path
    [/api/prom/query?] and the six parameters direction, limit, regexp,
    query, start and end, in this order, each as [key=value] with both
    sides URI-encoded, joined by "&". *)
Theorem built_target_url `{Services} (this : LokiDatasource) (target : LokiQuery)
    (options : DataQueryOptions) (w w' : World) (obj : Obj) :
  prepareQueryTarget this target options w = (Ok obj, w') →
  ∃ start end_,
    obj_get "start" obj = Some (VNum start) ∧
    obj_get "end" obj = Some (VNum end_) ∧
    req_url (request_of this obj) =
    is_url (instanceSettings this) +:+ "/api/prom/query" +:+ "?" +:+
    String.concat "&"
      [ encodeURIComponent "direction" +:+ "=" +:+ encodeURIComponent "BACKWARD";
        encodeURIComponent "limit" +:+ "=" +:+ encodeURIComponent (pretty (maxLines this));
        encodeURIComponent "regexp" +:+ "=" +:+
          encodeURIComponent (ps_regexp (parseQuery (templateSrv_replace (expr target))));
        encodeURIComponent "query" +:+ "=" +:+
          encodeURIComponent (ps_query (parseQuery (templateSrv_replace (expr target))));
        encodeURIComponent "start" +:+ "=" +:+ encodeURIComponent (pretty start);
        encodeURIComponent "end" +:+ "=" +:+ encodeURIComponent (pretty end_) ].
Proof.
  rewrite prepareQueryTarget_unfold.
  destruct (targets options !! 0%nat); [|done].
  destruct (window _ _ _) as [[start end_]|]; [|done].
  intros [= <- _]. exists start, end_. by repeat split.
Qed.

Lemma built_target_url_witness :
  req_url (request_of (H:=sample_backend) sample_datasource
             (live_target (H:=sample_backend) sample_datasource 0
                (logs_target "{job=a} err" false))) =
  "http://loki/api/prom/query?direction=BACKWARD&limit=500&regexp=err&query={job=a}&start=1699999999000000000&end=1700000000000000000".
Proof.
  destruct (built_target_url (H:=sample_backend) sample_datasource
              (logs_target "{job=a} err" false)
              (sample_options [logs_target "{job=a} err" false])
              sample_world _ _ eq_refl) as (start & end_ & Hs & He & Hurl).
  injection Hs as <-. injection He as <-. exact Hurl.
Defined.

(** ** What the streaming executor emits *)

Lemma filter_suppressed_all (ts : list LokiQuery) :
  Forall (λ t, suppressed t = true) ts → List.filter suppressed ts = ts.
Proof.
  induction 1 as [|t ts Ht _ IH]; [done|]. simpl. by rewrite Ht, IH.
Qed.

(** X11. A streaming batch of suppressed targets only never fails: it makes
    no backend call, reads no clock, and emits exactly one [EMPTY]
    placeholder per target and nothing else. *)
Theorem requestStream_all_suppressed `{Services} (this : LokiDatasource)
    (options : DataQueryOptions) (w : World) :
  Forall (λ t, suppressed t = true) (targets options) →
  requestStream this options w
  = (Ok (replicate (length (targets options)) EmEMPTY), w).
Proof.
  intros Hall. unfold requestStream.
  rewrite (filter_active_all_suppressed _ Hall), (filter_suppressed_all _ Hall).
  simpl. unfold bind, ret, merge. simpl.
  by rewrite app_nil_r, map_const_replicate.
Qed.

Lemma requestStream_all_suppressed_witness :
  requestStream (H:=sample_backend) sample_datasource
    (sample_options [logs_target "{job=a}" true; series_target "" false]) sample_world
  = (Ok [EmEMPTY; EmEMPTY], sample_world).
Proof.
  apply (requestStream_all_suppressed (H:=sample_backend) sample_datasource
           (sample_options [logs_target "{job=a}" true; series_target "" false])).
  repeat constructor.
Defined.

Lemma joined_nil_of_empty {A} (streams : list (list A)) (i : nat) :
  streams !! i = Some [] → joined streams = [].
Proof.
  intros Hi. destruct (joined_cases streams) as [Hnil|[Hlasts _]]; [done|].
  apply mapM_Some in Hlasts.
  destruct (Forall2_lookup_l _ _ _ _ _ Hlasts Hi) as (y & _ & Hy). done.
Qed.

Lemma joined_all_emit {A} (streams : list (list A)) (lasts : list A) :
  Forall2 (λ s y, last s = Some y) streams lasts → joined streams = lasts.
Proof.
  intros Hall. pose proof (mapM_Some_2 _ _ _ Hall) as Hm.
  unfold joined, mergeMap, combineLatest, forkJoin.
  destruct streams as [|s streams].
  - by apply Forall2_nil_inv_l in Hall as ->.
  - rewrite Hm. simpl. by rewrite app_nil_r.
Qed.

(** X12. When the backend stream of one surviving target completes without
    a value, a completed run emits no result for any target, only the
    placeholders, although the calls for all surviving targets were
    made. *)
Theorem requestStream_silent_stream `{Services} (this : LokiDatasource)
    (options : DataQueryOptions) (w w' : World) (ems : list Emission)
    (i : nat) (req : Request) :
  requestStream this options w = (Ok ems, w') →
  calls w' !! (length (calls w) + i)%nat = Some req →
  datasourceStream (length (calls w) + i) req = [] →
  ems = replicate (length (List.filter suppressed (targets options))) EmEMPTY ∧
  length (calls w') =
    (length (calls w) + length (List.filter active (targets options)))%nat.
Proof.
  intros Hrun Hreq Hsilent.
  destruct (targets options !! 0%nat) as [t0|] eqn:Ht0.
  - destruct (requestStream_inv_exact _ _ t0 _ _ _ Ht0 Hrun) as (qts & Hall & Hc & ->).
    split.
    + rewrite Hc, lookup_app_r in Hreq by lia.
      replace (length (calls w) + i - length (calls w))%nat with i in Hreq by lia.
      rewrite list_lookup_fmap in Hreq.
      destruct (qts !! i) as [q|] eqn:Hq; [|done].
      injection Hreq as Hreq. subst req.
      rewrite (joined_nil_of_empty _ i); [by rewrite app_nil_r|].
      unfold tagged_streams. rewrite list_lookup_imap, Hq. simpl.
      by rewrite Hsilent.
    + by rewrite Hc, length_app, length_map, (Forall2_length _ _ _ Hall).
  - destruct (requestStream_inv _ _ _ _ _ Hrun) as (qts & xs & Hall & Hc & _ & ->).
    rewrite Ht0. simpl. rewrite app_nil_r. split; [done|].
    by rewrite Hc, length_app, length_map, (Forall2_length _ _ _ Hall).
Qed.

Lemma requestStream_silent_stream_witness :
  let out := requestStream (H:=silent_backend) sample_datasource
               trailing_hidden_options sample_world in
  [EmEMPTY] = replicate 1 EmEMPTY ∧ length (calls out.2) = 1%nat.
Proof.
  intros out.
  refine (requestStream_silent_stream (H:=silent_backend) sample_datasource
            trailing_hidden_options sample_world out.2 [EmEMPTY] 0 _
            ltac:(vm_compute; reflexivity) eq_refl eq_refl).
Defined.

(** X13. When every backend stream emits, a completed run emits, after the
    placeholders, one result per surviving target in the order of the
    targets, and each result is built from the last response of its
    target's stream alone (earlier responses are dropped; a last response
    without body, data or streams counts as no stream). *)
Theorem requestStream_last_responses `{Services} (this : LokiDatasource)
    (options : DataQueryOptions) (t0 : LokiQuery) (w w' : World)
    (ems : list Emission) :
  requestStream this options w = (Ok ems, w') →
  targets options !! 0%nat = Some t0 →
  (∀ i req, calls w' !! (length (calls w) + i)%nat = Some req →
            datasourceStream (length (calls w) + i) req ≠ []) →
  ∃ qts,
    Forall2 (built_from this) (List.filter active (targets options)) qts ∧
    ems = replicate (length (List.filter suppressed (targets options))) EmEMPTY
          ++ imap (λ i q,
                     EmResult
                       (shape_of this options t0
                          (tagCopies (heap w) q
                             (default None
                                (last (datasourceStream (length (calls w) + i)
                                         (stream_request_of this options q)))))))
               qts.
Proof.
  intros Hrun Ht0 Hemit.
  destruct (requestStream_inv_exact _ _ t0 _ _ _ Ht0 Hrun) as (qts & Hall & Hc & ->).
  exists qts. split; [done|]. f_equal.
  rewrite (joined_all_emit _
             (imap (λ i q, tagCopies (heap w) q
                             (default None
                                (last (datasourceStream (length (calls w) + i)
                                         (stream_request_of this options q))))) qts)).
  { rewrite !fmap_imap. by apply imap_ext. }
  apply Forall2_same_length_lookup. unfold tagged_streams.
  split; [by rewrite !length_imap|].
  intros i s y Hs Hy. rewrite list_lookup_imap in Hs. rewrite list_lookup_imap in Hy.
  destruct (qts !! i) as [q|] eqn:Hq; [|done].
  injection Hs as <-. injection Hy as <-.
  rewrite fmap_last.
  assert (calls w' !! (length (calls w) + i)%nat
          = Some (stream_request_of this options q)) as Hreq.
  { rewrite Hc, lookup_app_r by lia.
    replace (length (calls w) + i - length (calls w))%nat with i by lia.
    by rewrite list_lookup_fmap, Hq. }
  specialize (Hemit _ _ Hreq).
  destruct (last_is_Some (datasourceStream (length (calls w) + i)
                            (stream_request_of this options q))) as [_ Hl].
  destruct (Hl Hemit) as [r ->]. done.
Qed.

Lemma requestStream_last_responses_witness :
  ∃ qts,
    Forall2 (built_from (H:=sample_backend) sample_datasource)
      (List.filter active (targets trailing_hidden_options)) qts ∧
    [EmEMPTY;
     EmResult {| qr_data := [ItemStream (tagStream (Some (VStr "x")) stream_a)] |}]
    = replicate 1 EmEMPTY
      ++ imap (λ i q,
                 EmResult
                   (shape_of (H:=sample_backend) sample_datasource
                      trailing_hidden_options (logs_target "{job=a} x" false)
                      (tagCopies (heap sample_world) q
                         (default None
                            (last (datasourceStream (Services:=sample_backend) (0 + i)
                                     (stream_request_of (H:=sample_backend)
                                        sample_datasource trailing_hidden_options q)))))))
          qts.
Proof.
  refine (requestStream_last_responses (H:=sample_backend) sample_datasource
            trailing_hidden_options (logs_target "{job=a} x" false) sample_world
            (requestStream (H:=sample_backend) sample_datasource
               trailing_hidden_options sample_world).2 _
            ltac:(vm_compute; reflexivity) eq_refl _).
  intros i req _. discriminate.
Defined.

(** ** The store and the clock under polling *)

Lemma array_map_prepare_heap `{Services} (this : LokiDatasource)
    (options : DataQueryOptions) (ts : list LokiQuery) (w : World) :
  heap (array_map (fun target => prepareQueryTarget this target options) ts w).2
  = heap w.
Proof.
  revert w. induction ts as [|t ts IH]; intros w; [done|].
  simpl. unfold bind at 1.
  pose proof (prepareQueryTarget_world this t options w) as Hw.
  destruct (prepareQueryTarget this t options w) as [[q|e] w1]; simpl in Hw.
  - unfold bind at 1. specialize (IH w1).
    destruct (array_map _ ts w1) as [[qs|e] w2]; simpl in *;
      rewrite IH; by destruct Hw as [->| ->].
  - simpl. by destruct Hw as [->| ->].
Qed.

Lemma requestStream_heap `{Services} (this : LokiDatasource)
    (options : DataQueryOptions) (w : World) :
  heap (requestStream this options w).2 = heap w.
Proof.
  unfold requestStream. unfold bind at 1.
  pose proof (array_map_prepare_heap this options
                (List.filter active (targets options)) w) as Hw.
  destruct (array_map _ (List.filter active (targets options)) w)
    as [[qts|e] w1]; simpl in Hw; [|done].
  unfold bind at 1. rewrite array_map_stream. unfold bind at 1.
  match goal with
  | |- context [array_map (shapeResult this options) ?xs ?w2] =>
      pose proof (array_map_shape_world this options xs w2) as Hw2;
      destruct (array_map (shapeResult this options) xs w2) as [[result|e] w3]
  end; simpl in Hw2; by subst w3.
Qed.

(** X14. The streaming path never writes to the store: [requestStream], and
    so every tick of [webSocketStream], tags copies of the returned streams
    and leaves the stream objects of the responses as they were, whether
    the run completes or fails; [query] writes the tag on the objects
    themselves. *)
Theorem streaming_leaves_store `{Services} (this : LokiDatasource)
    (options : DataQueryOptions) (n : nat) (w : World) :
  heap (requestStream this options w).2 = heap w ∧
  heap (webSocketStream this options n w).2 = heap w.
Proof.
  split; [apply requestStream_heap|].
  revert w. induction n as [|n IH]; intros w; [done|].
  simpl. unfold bind at 1.
  pose proof (requestStream_heap this options w) as Hh.
  destruct (requestStream this options w) as [[value|e] w1]; simpl in Hh; [|done].
  unfold bind at 1. specialize (IH w1).
  by destruct (webSocketStream this options n w1) as [[later|e] w2]; simpl in *;
    rewrite IH.
Qed.

(** The one-shot path does write: after [query] the returned stream object
    carries the tag, after [requestStream] it does not. *)
Example query_writes_requestStream_copies :
  search <$> heap (query (H:=sample_backend) sample_datasource two_logs_options
                     sample_world).2 !! 1%positive = Some (Some (VStr "x")) ∧
  search <$> heap (requestStream (H:=sample_backend) sample_datasource
                     two_logs_options sample_world).2 !! 1%positive = Some None.
Proof. split; vm_compute; reflexivity. Qed.

Lemma requestStream_live `{Services} (this : LokiDatasource)
    (options : DataQueryOptions) (t0 : LokiQuery) (w : World) :
  targets options !! 0%nat = Some t0 →
  is_time_series t0 = false →
  ∃ ems w',
    requestStream this options w = (Ok ems, w') ∧
    length (calls w') =
      (length (calls w) + length (List.filter active (targets options)))%nat ∧
    clockReads w' =
      (clockReads w + length (List.filter active (targets options)))%nat.
Proof.
  intros Ht0 Hlive.
  rewrite (requestStream_run _ _ t0 _ w _ Ht0
             (array_map_prepare_live _ _ t0 _ w Ht0 Hlive)).
  eexists _, _. split; [reflexivity|]. simpl.
  by rewrite length_app, length_map, length_imap.
Qed.

(** X15. In live mode (the first target is not in time-series format) the
    poller never throws, whatever the requested range: each of its ticks
    completes, makes one call per surviving target and reads the clock
    afresh for each of them, so [n] ticks make [n] times as many calls and
    clock readings as there are surviving targets. *)
Theorem webSocketStream_live_total `{Services} (this : LokiDatasource)
    (options : DataQueryOptions) (t0 : LokiQuery) (n : nat) (w : World) :
  targets options !! 0%nat = Some t0 →
  is_time_series t0 = false →
  ∃ ems w',
    webSocketStream this options n w = (Ok ems, w') ∧
    length (calls w') =
      (length (calls w) + n * length (List.filter active (targets options)))%nat ∧
    clockReads w' =
      (clockReads w + n * length (List.filter active (targets options)))%nat.
Proof.
  intros Ht0 Hlive. revert w. induction n as [|n IH]; intros w; simpl.
  - eexists _, _. split; [reflexivity|]. split; lia.
  - destruct (requestStream_live this options t0 w Ht0 Hlive)
      as (value & w1 & Hrun & Hc1 & Hk1).
    destruct (IH w1) as (later & w2 & Hrest & Hc2 & Hk2).
    unfold bind at 1. rewrite Hrun. unfold bind at 1. rewrite Hrest.
    eexists _, _. split; [reflexivity|]. split; lia.
Qed.

Lemma webSocketStream_live_total_witness :
  ∃ ems w',
    webSocketStream (H:=sample_backend) sample_datasource two_logs_options 3
      sample_world = (Ok ems, w') ∧
    length (calls w') = 6%nat ∧ clockReads w' = 6%nat.
Proof.
  exact (webSocketStream_live_total (H:=sample_backend) sample_datasource
           two_logs_options (logs_target "{job=a} x" false) 3 sample_world
           eq_refl eq_refl).
Defined.

(** ** An empty batch *)

(** X16. With no target at all, [stream] throws a [TypeError] (it reads
    the format of a first target that is not there), whereas [query]
    resolves with [{data: []}] and [requestStream] completes without a
    value; none of them makes a backend call or reads the clock. *)
Theorem empty_batch `{Services} (this : LokiDatasource) (options : DataQueryOptions)
    (n : nat) (w : World) :
  targets options = [] →
  stream this options n w = (Fail TypeError, w) ∧
  query this options w = (Ok {| qr_data := [] |}, w) ∧
  requestStream this options w = (Ok [], w).
Proof.
  intros Hnil. unfold stream, query, requestStream, first_target.
  rewrite Hnil. done.
Qed.

Lemma empty_batch_witness :
  stream (H:=sample_backend) sample_datasource (sample_options []) 2 sample_world
  = (Fail TypeError, sample_world) ∧
  query (H:=sample_backend) sample_datasource (sample_options []) sample_world
  = (Ok {| qr_data := [] |}, sample_world) ∧
  requestStream (H:=sample_backend) sample_datasource (sample_options []) sample_world
  = (Ok [], sample_world).
Proof.
  exact (empty_batch (H:=sample_backend) sample_datasource (sample_options []) 2
           sample_world eq_refl).
Defined.

(** ** What the one-shot executor leaves alone *)

Lemma tag_refs_same_stream (rg : option Val) (ls : list loc)
    (h : gmap loc LogsStream) (l : loc) :
  option_Forall2 (λ s s', labels s' = labels s ∧ entries s' = entries s)
    (h !! l) (tag_refs rg ls h !! l).
Proof.
  destruct (decide (l ∈ ls)) as [Hin|Hnot].
  - rewrite tag_refs_lookup_in by done.
    destruct (h !! l); constructor. done.
  - rewrite tag_refs_lookup_notin by done.
    destruct (h !! l); constructor. done.
Qed.

Lemma tag_all_same_stream (qts : list Obj) (rs : list Response)
    (h : gmap loc LogsStream) (l : loc) :
  option_Forall2 (λ s s', labels s' = labels s ∧ entries s' = entries s)
    (h !! l) (tag_all qts rs h !! l).
Proof.
  revert rs h. induction qts as [|q qts IH]; intros [|r rs] h; simpl;
    try (destruct (h !! l); constructor; done).
  pose proof (tag_refs_same_stream (obj_get "regexp" q) (streams_of r) h l) as H1.
  pose proof (IH rs (tag_refs (obj_get "regexp" q) (streams_of r) h)) as H2.
  destruct H1 as [s s1 [Hl1 He1]|]; inversion H2 as [s1' s2 [Hl2 He2]|]; subst;
    constructor. split; congruence.
Qed.

(** X17. A fulfilled [query] changes nothing in the store but the [search]
    field of streams the backend returned: every stream object keeps its
    labels and entries, and an object that occurs in none of the backend's
    answers to the requests of the batch is left exactly as it was. *)
Theorem query_only_tags `{Services} (this : LokiDatasource)
    (options : DataQueryOptions) (w w' : World) (r : QueryResult) :
  query this options w = (Ok r, w') →
  (∀ l, option_Forall2 (λ s s', labels s' = labels s ∧ entries s' = entries s)
          (heap w !! l) (heap w' !! l)) ∧
  (∀ l,
     (∀ i req res,
        calls w' !! (length (calls w) + i)%nat = Some req →
        datasourceRequest (length (calls w) + i) req = Ok (Some res) →
        l ∉ streams_of res) →
     heap w' !! l = heap w !! l).
Proof.
  intros Hrun.
  destruct (decide (List.filter active (targets options) = [])) as [Hnil|Hne].
  - unfold query in Hrun. rewrite Hnil in Hrun. injection Hrun as <- <-.
    split; [|done].
    intros l. destruct (heap w !! l); constructor. done.
  - destruct (query_inv _ _ _ _ _ Hrun Hne)
      as (t0 & qts & rs & _ & Hall & Hresp & Hcalls & -> & _).
    split; [intros l; apply tag_all_same_stream|].
    intros l Hfree. apply tag_all_lookup_notin.
    intros Hin. apply list_elem_of_In, in_concat in Hin as (ls & Hls & Hl).
    apply list_elem_of_In in Hls, Hl.
    apply list_elem_of_fmap in Hls as (res & -> & Hres).
    apply list_elem_of_lookup in Hres as [i Hi].
    apply (f_equal (λ k, k !! i)) in Hresp.
    rewrite list_lookup_fmap, Hi, list_lookup_imap in Hresp.
    destruct (qts !! i) as [q|] eqn:Hq; [|done].
    simpl in Hresp. injection Hresp as Hresp.
    apply (Hfree i (request_of this q) res); [|done|done].
    rewrite Hcalls, lookup_app_r by lia.
    replace (length (calls w) + i - length (calls w))%nat with i by lia.
    by rewrite list_lookup_fmap, Hq.
Qed.

Lemma query_only_tags_witness :
  heap (query (H:=sample_backend) sample_datasource mixed_options sample_world).2
    !! 2%positive
  = heap sample_world !! 2%positive.
Proof.
  refine (proj2 (query_only_tags (H:=sample_backend) sample_datasource mixed_options
                   sample_world _
                   {| qr_data := [ItemSeries {| series_labels := "count";
                                                datapoints := [(1, 1000)] |}] |}
                   ltac:(vm_compute; reflexivity)) 2%positive _).
  intros [|i] req res Hcall Hres.
  - injection Hres as <-. simpl. by intros [=]%list_elem_of_singleton.
  - vm_compute in Hcall. discriminate.
Defined.

Lemma array_map_ext {A B} (f g : A → M B) (xs : list A) (w : World) :
  (∀ x w0, f x w0 = g x w0) → array_map f xs w = array_map g xs w.
Proof.
  intros Hfg. revert w. induction xs as [|x xs IH]; intros w; [done|].
  simpl. unfold bind at 1 3. rewrite Hfg.
  destruct (g x w) as [[y|e] w1]; [|done].
  unfold bind. by rewrite IH.
Qed.

Lemma bind_ext {A B} (m m' : M A) (f f' : A → M B) (w : World) :
  m w = m' w → (∀ a w1, f a w1 = f' a w1) → bind m f w = bind m' f' w.
Proof.
  intros Hm Hf. unfold bind. rewrite Hm.
  destruct (m' w) as [[a|e] w1]; [apply Hf | done].
Qed.

(** X18. The outcome of [query] depends on the target list only through
    its first element and its surviving targets: two batches with the same
    range and interval, the same first target and the same surviving
    targets behave alike, so suppressed targets other than the first have
    no effect at all. *)
Theorem query_ignores_suppressed `{Services} (this : LokiDatasource)
    (options options' : DataQueryOptions) (w : World) :
  range options = range options' →
  intervalMs options = intervalMs options' →
  targets options !! 0%nat = targets options' !! 0%nat →
  List.filter active (targets options) = List.filter active (targets options') →
  query this options w = query this options' w.
Proof.
  intros Hrange Hint Hfirst Hsurv. unfold query. rewrite Hsurv.
  apply bind_ext.
  { apply array_map_ext. intros t w0.
    rewrite !prepareQueryTarget_unfold, Hfirst.
    destruct (targets options' !! 0%nat) as [t0|]; [|done].
    unfold window. by rewrite Hrange. }
  intros qts w1. destruct (length qts =? 0)%nat; [done|].
  apply bind_ext; [done|]. intros queries w2.
  apply bind_ext; [done|]. intros results w3.
  apply bind_ext; [done|]. intros allStreams w4.
  apply bind_ext; [done|]. intros h w5.
  unfold shapeResult, first_target. by rewrite Hfirst, Hint.
Qed.

Lemma query_ignores_suppressed_witness :
  query (H:=sample_backend) sample_datasource
    (sample_options [logs_target "{job=a} x" false; logs_target "{job=b} err" true;
                     series_target "" false])
    sample_world
  = query (H:=sample_backend) sample_datasource
      (sample_options [logs_target "{job=a} x" false]) sample_world.
Proof.
  apply (query_ignores_suppressed (H:=sample_backend) sample_datasource); reflexivity.
Defined.
